(** * Stock correlation engine: statistics, alignment and matrix construction

    A shallow embedding of the statistics code of the stock dashboard:
    [utils/stockUtils.ts] (mean, standard deviation, correlation, alignment
    by timestamp, [processStockData], the colour scale), the matrix, the
    statistics, the cells and the legend of
    [components/CorrelationHeatmap.tsx], the lag-1 correlation and the price
    change computed in [pages/StockPage.tsx], and the handlers of the ticker
    list of [pages/CorrelationPage.tsx].

    Modelling choices:
    - JavaScript numbers are IEEE 754 binary64 values with
      round-to-nearest-even arithmetic; they are Rocq's primitive [float],
      the same format with the same rounding, so the definitions evaluate to
      the numbers the program produces. [Math.sqrt] is the correctly rounded
      square root and [Math.pow(x, 2)] the correctly rounded square.
    - Arrays are lists; a loop over indices is a fold over [seq].
    - A [Map] is an association list in insertion order; an object used as a
      record of rows is a [gmap] of its own properties; the input object of
      series is the list of its properties in [Object.keys] order. The key
      ["__proto__"] is not an own property of an object built by
      assignment, so the properties of the objects assume that no symbol is
      ["__proto__"].
    - A statement that can throw ([matrix[row][col] = v] on a missing row,
      [toISOString()] on an invalid date) returns [option]; the loops
      thread their state through the callbacks.
    - Strings are Rocq strings, compared character by character as [<] and
      [===] compare them.
    - The built-in [Date] is a parameter: what the code takes from it is in
      [DateRuntime], with the time zone and the timestamps that do not
      parse; so are [trim] and [toUpperCase] in the handlers of the
      correlation page.
    - The state of a component is a record, and a handler is a function from
      the state it runs in to the state it leaves; an asynchronous load is
      split at its [await]. *)

From Stdlib Require Import Floats ZArith List Ascii String Bool Lia.
From stdpp Require Import base option list gmap strings.
Import ListNotations.

#[local] Set Warnings "-clear-no-such-hyp".

(** ** JavaScript numbers *)

Module JSNumber.

(** [arr.length] read as a number (array lengths are below 2^32, where the
    conversion is exact). *)
Definition of_length (n : nat) : float :=
  PrimFloat.of_uint63 (Uint63.of_Z (Z.of_nat n)).

(** [Math.sqrt]. *)
Definition Math_sqrt (x : float) : float := PrimFloat.sqrt x.

(** [Math.pow(x, 2)], taken as the correctly rounded square. *)
Definition Math_pow2 (x : float) : float := (x * x)%float.

(** [Math.min(a, b)]: NaN if either argument is NaN, and -0 below +0. *)
Definition Math_min (a b : float) : float :=
  if PrimFloat.is_nan a || PrimFloat.is_nan b then nan
  else if (a <? b)%float then a
  else if (b <? a)%float then b
  else if PrimFloat.get_sign a then a else b.

(** [Math.max(a, b)]: NaN if either argument is NaN, and +0 above -0. *)
Definition Math_max (a b : float) : float :=
  if PrimFloat.is_nan a || PrimFloat.is_nan b then nan
  else if (a <? b)%float then b
  else if (b <? a)%float then a
  else if PrimFloat.get_sign a then b else a.

(** [arr[i]] used in arithmetic: an index out of range reads [undefined],
    which arithmetic turns into NaN. *)
Definition at_index (arr : list float) (i : nat) : float := nth i arr nan.

End JSNumber.
Import JSNumber.

(** ** types/stock.ts *)

Record StockPrice := mkStockPrice {
  ticker : string;
  price : float;
  timestamp : string
}.

(** ** utils/stockUtils.ts: descriptive statistics and correlation *)

Section Statistics.
Local Open Scope float_scope.

Definition calculateAverage (prices : list float) : float :=
  if Nat.eqb (length prices) 0 then 0
  else
    let sum := fold_left (fun acc price => acc + price) prices 0 in
    sum / of_length (length prices).

Definition calculateStandardDeviation (prices : list float) : float :=
  if Nat.eqb (length prices) 0 then 0
  else
    let avg := calculateAverage prices in
    let squareDiffs := map (fun price => Math_pow2 (price - avg)) prices in
    let avgSquareDiff := calculateAverage squareDiffs in
    Math_sqrt avgSquareDiff.

(** The three accumulators of the correlation loop. *)
Record Sums := mkSums {
  covariance : float;
  variance1 : float;
  variance2 : float
}.

(** One iteration of [for (let i = 0; i < n; i++)]. *)
Definition sumsStep (prices1 prices2 : list float) (avg1 avg2 : float)
    (acc : Sums) (i : nat) : Sums :=
  let diff1 := at_index prices1 i - avg1 in
  let diff2 := at_index prices2 i - avg2 in
  {| covariance := covariance acc + diff1 * diff2;
     variance1 := variance1 acc + diff1 * diff1;
     variance2 := variance2 acc + diff2 * diff2 |}.

Definition sumsLoop (n : nat) (prices1 prices2 : list float)
    (avg1 avg2 : float) : Sums :=
  fold_left (sumsStep prices1 prices2 avg1 avg2) (seq 0 n)
    {| covariance := 0; variance1 := 0; variance2 := 0 |}.

(** [variance1 === 0] is [PrimFloat.is_zero]: the IEEE comparison with 0,
    true for both zeros and false for NaN. *)
Definition calculateCorrelation (prices1 prices2 : list float) : float :=
  if negb (Nat.eqb (length prices1) (length prices2))
     || Nat.eqb (length prices1) 0
  then 0
  else
    let n := length prices1 in
    let avg1 := calculateAverage prices1 in
    let avg2 := calculateAverage prices2 in
    let acc := sumsLoop n prices1 prices2 avg1 avg2 in
    if PrimFloat.is_zero (variance1 acc) || PrimFloat.is_zero (variance2 acc)
    then 0
    else
      covariance acc / (Math_sqrt (variance1 acc) * Math_sqrt (variance2 acc)).

End Statistics.


(** ** Effects: callbacks that may throw

    A property read on [undefined] throws a [TypeError] and
    [toISOString()] on an invalid date a [RangeError]; a computation that
    may throw returns [option], with [None] for the exception. *)

(** [arr.forEach(item => ...)] threading the mutated state. *)
Fixpoint forEach {St A : Type} (body : St -> A -> option St)
    (arr : list A) (st : St) : option St :=
  match arr with
  | [] => Some st
  | item :: rest => st' ← body st item; forEach body rest st'
  end.

(** [arr.forEach((item, i) => ...)], the index counted from [i]. *)
Fixpoint forEachFrom {St A : Type} (body : St -> A -> nat -> option St)
    (i : nat) (arr : list A) (st : St) : option St :=
  match arr with
  | [] => Some st
  | item :: rest => st' ← body st item i; forEachFrom body (S i) rest st'
  end.

(** ** The built-in [Map<string, number>]: insertion-ordered, unique keys *)

Module JSMap.

Definition t : Type := list (string * float).

Definition empty : t := [].

(** [m.set(k, v)]: a present key keeps its position and takes the new
    value, a new key is appended. *)
Fixpoint set (k : string) (v : float) (m : t) : t :=
  match m with
  | [] => [(k, v)]
  | (k', v') :: rest =>
      if String.eqb k' k then (k', v) :: rest else (k', v') :: set k v rest
  end.

Fixpoint get (k : string) (m : t) : option float :=
  match m with
  | [] => None
  | (k', v') :: rest => if String.eqb k' k then Some v' else get k rest
  end.

Definition has (k : string) (m : t) : bool :=
  match get k m with Some _ => true | None => false end.

(** [Array.from(m.keys())] *)
Definition keys (m : t) : list string := map fst m.

(** [m.get(k)!] used as a number. *)
Definition get_asserted (k : string) (m : t) : float :=
  match get k m with Some v => v | None => nan end.

End JSMap.

(** ** [Record<string, V>] objects read through [Object.keys]

    An object is modelled by its own properties. For an object created by
    [{}], [obj[k] = v] creates or updates the own property [k] and [obj[k]]
    reads it back, for every key [k] but ["__proto__"]: that assignment sets
    the prototype instead of a property. The objects below are the program's
    objects on keys other than ["__proto__"], and are only read at keys
    that were written; the properties of a matrix or of the statistics
    assume that no symbol is ["__proto__"]. *)

(** The own properties of [stockData] in [Object.keys] order. *)
Definition StockData : Type := list (string * list StockPrice).

Definition Object_keys (stockData : StockData) : list string :=
  map fst stockData.

(** [stockData[k]] *)
Fixpoint property (k : string) (stockData : StockData)
    : option (list StockPrice) :=
  match stockData with
  | [] => None
  | (k', v) :: rest => if String.eqb k' k then Some v else property k rest
  end.

(** [Record<string, Record<string, number>>] *)
Abbreviation Matrix := (gmap string (gmap string float)).

(** [matrix[row][col] = v] for keys other than ["__proto__"]; throws when
    [matrix[row]] is undefined. *)
Definition setCell (matrix : Matrix) (row col : string) (v : float)
    : option Matrix :=
  r ← matrix !! row; Some (<[row := <[col := v]> r]> matrix).

(** [matrix[row][col]] for a row and a cell that are own properties. *)
Definition cell (matrix : Matrix) (row col : string) : option float :=
  r ← matrix !! row; r !! col.

(** "Initialize correlation matrix": every row a fresh object, every cell 0
    (for tickers other than ["__proto__"]). *)
Definition initMatrix (tickers : list string) : option Matrix :=
  forEach (fun (matrix : Matrix) ticker1 =>
      forEach
        (fun (matrix : Matrix) ticker2 =>
           setCell matrix ticker1 ticker2 0%float)
        tickers (<[ticker1 := ∅]> matrix))
    tickers ∅.

(** ** utils/stockUtils.ts: alignment and the correlation matrix *)

Record AlignedPrice := mkAlignedPrice {
  price1 : float;
  price2 : float
}.

(** *** What the aligner uses of the built-in [Date] *)

(** The fields of a date in local time, as the getters return them and as
    the seven-argument constructor takes them ([month] counts from 0). *)
Record DateFields := mkDateFields {
  fullYear : nat;
  month : nat;
  date : nat;
  hours : nat;
  minutes : nat;
  seconds : nat;
  milliseconds : nat
}.

(** The runtime behind [Date], which knows the time zone. [localFields ts]
    are the values of [getFullYear()], ..., [getMilliseconds()] on
    [new Date(ts)], or [None] when [new Date(ts)] is an invalid date, whose
    getters return NaN. [toISOString f] is
    [new Date(year, month, date, hours, minutes, seconds, ms).toISOString()]
    for fields taken from a valid date. *)
Record DateRuntime := mkDateRuntime {
  localFields : string -> option DateFields;
  toISOString : DateFields -> string
}.

(** The key of a sample: its local year, month, day, hour and minute put
    back into a [Date] with 0 seconds and 0 milliseconds. On a timestamp
    that does not parse, the date rebuilt from NaN fields is invalid and
    [toISOString()] throws a [RangeError]: [None]. *)
Definition roundedTime (runtime : DateRuntime) (timestamp : string)
    : option string :=
  d ← localFields runtime timestamp;
  Some (toISOString runtime
          {| fullYear := fullYear d;
             month := month d;
             date := date d;
             hours := hours d;
             minutes := minutes d;
             seconds := 0;
             milliseconds := 0 |}).

Section Aligner.

Variable runtime : DateRuntime.

(** "Create maps of timestamp to price": [prices.forEach(item => ...)]. *)
Definition timeMap (prices : list StockPrice) : option JSMap.t :=
  forEach
    (fun m item =>
       key ← roundedTime runtime (timestamp item);
       Some (JSMap.set key (price item) m))
    prices JSMap.empty.

(** Both maps are built before the keys of the first are read. *)
Definition alignPricesByTimestamp (prices1 prices2 : list StockPrice)
    : option (list AlignedPrice) :=
  timeMap1 ← timeMap prices1;
  timeMap2 ← timeMap prices2;
  let timestamps1 := JSMap.keys timeMap1 in
  Some
    (fold_left
       (fun alignedPrices timestamp =>
          if JSMap.has timestamp timeMap2
          then alignedPrices ++
               [ {| price1 := JSMap.get_asserted timestamp timeMap1;
                    price2 := JSMap.get_asserted timestamp timeMap2 |} ]
          else alignedPrices)
       timestamps1 []).

(** The body of the two nested [forEach] of "Calculate correlations"
    ([prices1] and [prices2], which it computes and never uses, only read the
    two series). *)
Definition processCell (stockData : StockData) (ticker1 : string)
    (matrix : Matrix) (ticker2 : string) : option Matrix :=
  if String.eqb ticker1 ticker2 then setCell matrix ticker1 ticker2 1%float
  else if String.ltb ticker1 ticker2 then
    series1 ← property ticker1 stockData;
    series2 ← property ticker2 stockData;
    alignedPrices ← alignPricesByTimestamp series1 series2;
    let alignedPrices1 := map price1 alignedPrices in
    let alignedPrices2 := map price2 alignedPrices in
    let correlation := calculateCorrelation alignedPrices1 alignedPrices2 in
    matrix ← setCell matrix ticker1 ticker2 correlation;
    setCell matrix ticker2 ticker1 correlation
  else Some matrix.

Definition processStockData (stockData : StockData) : option Matrix :=
  let tickers := Object_keys stockData in
  correlationMatrix ← initMatrix tickers;
  forEach (fun matrix ticker1 =>
      forEach (processCell stockData ticker1) tickers matrix)
    tickers correlationMatrix.

End Aligner.

(** ** components/CorrelationHeatmap.tsx: the matrix of the heat map *)

Module CorrelationHeatmap.

(** The body of the two nested [forEach((ticker, index) => ...)]. *)
Definition heatmapCell (stockData : StockData) (ticker1 : string) (i : nat)
    (matrix : Matrix) (ticker2 : string) (j : nat) : option Matrix :=
  if Nat.leb i j then
    series1 ← property ticker1 stockData;
    series2 ← property ticker2 stockData;
    let prices1 := map price series1 in
    let prices2 := map price series2 in
    let minLength := Nat.min (length prices1) (length prices2) in
    let alignedPrices1 := firstn minLength prices1 in
    let alignedPrices2 := firstn minLength prices2 in
    let n := length alignedPrices1 in
    if Nat.eqb n 0 then
      matrix ← setCell matrix ticker1 ticker2 0%float;
      setCell matrix ticker2 ticker1 0%float
    else
      let avg1 := calculateAverage alignedPrices1 in
      let avg2 := calculateAverage alignedPrices2 in
      let acc := sumsLoop n alignedPrices1 alignedPrices2 avg1 avg2 in
      let correlation :=
        if (0 <? variance1 acc)%float && (0 <? variance2 acc)%float
        then (covariance acc
              / (Math_sqrt (variance1 acc) * Math_sqrt (variance2 acc)))%float
        else 0%float in
      let correlation := Math_max (-1)%float (Math_min 1%float correlation) in
      matrix ← setCell matrix ticker1 ticker2 correlation;
      setCell matrix ticker2 ticker1 correlation
  else Some matrix.

Definition correlationMatrix (stockData : StockData) : option Matrix :=
  let tickers := Object_keys stockData in
  matrix ← initMatrix tickers;
  forEachFrom (fun matrix ticker1 i =>
      forEachFrom (heatmapCell stockData ticker1 i) 0 tickers matrix)
    0 tickers matrix.

End CorrelationHeatmap.

(** ** pages/StockPage.tsx: correlation of successive price changes *)

Module StockPage.

(** [for (let i = 1; i < prices.length; i++) priceChanges.push(...)] *)
Definition priceChanges (prices : list float) : list float :=
  fold_left
    (fun changes i =>
       changes ++ [(at_index prices i - at_index prices (i - 1))%float])
    (seq 1 (length prices - 1)) [].

Definition correlation (prices : list float) : float :=
  let priceChanges := priceChanges prices in
  if Nat.ltb 1 (length priceChanges) then
    let currentChanges := firstn (length priceChanges - 1) priceChanges in
    let nextChanges := skipn 1 priceChanges in
    calculateCorrelation currentChanges nextChanges
  else 0%float.

End StockPage.


(** ** utils/stockUtils.ts: the colour of a correlation *)

(** The thresholds are the binary64 numbers nearest to 0.7, 0.3, -0.3 and
    -0.7, written in hexadecimal; [value >= 0.7] is [0.7 <= value]. *)
Definition getColorForCorrelation (value : float) : string :=
  if (0x1.6666666666666p-1 <=? value)%float then "#2e7d32"
  else if (0x1.3333333333333p-2 <=? value)%float then "#689f38"
  else if (-0x1.3333333333333p-2 <? value)%float then "#9e9e9e"
  else if (-0x1.6666666666666p-1 <? value)%float then "#ef6c00"
  else "#c62828".

(** ** JavaScript values used as conditions *)

(** A number is falsy when it is [0], [-0] or [NaN]. *)
Definition truthy (x : float) : bool :=
  negb (PrimFloat.is_zero x || PrimFloat.is_nan x).

(** [v || d] where [v] is a number or [undefined]. *)
Definition orElse (v : option float) (d : float) : float :=
  match v with
  | Some x => if truthy x then x else d
  | None => d
  end.

(** ** components/CorrelationHeatmap.tsx: statistics, cells and legend *)

Module HeatmapView.

Record Stats := mkStats {
  avg : float;
  stdDev : float
}.

(** [stockStats]: one entry per ticker (other than ["__proto__"]);
    [stockData[ticker]?.map(item => item.price) || []]. *)
Definition stockStats (stockData : StockData) : gmap string Stats :=
  fold_left
    (fun (stats : gmap string Stats) ticker =>
       let prices :=
         match property ticker stockData with
         | Some series => map price series
         | None => []
         end in
       <[ticker := {| avg := calculateAverage prices;
                      stdDev := calculateStandardDeviation prices |}]> stats)
    (Object_keys stockData) ∅.

(** [correlationMatrix[rowTicker]?.[colTicker] || 0], the number shown in
    a cell. *)
Definition displayedCorrelation (matrix : Matrix)
    (rowTicker colTicker : string) : float :=
  orElse (cell matrix rowTicker colTicker) 0%float.

(** The [backgroundColor] of a cell. *)
Definition cellBackground (matrix : Matrix)
    (rowTicker colTicker : string) : string :=
  getColorForCorrelation (displayedCorrelation matrix rowTicker colTicker).

(** The values mapped into the boxes of the "Correlation Legend". *)
Definition legendValues : list float :=
  [(-1)%float; (-0x1p-1)%float; 0%float; 0x1p-1%float; 1%float].

(** The colour of each legend box; the callback returns [null] for the
    last value, which has no next value. *)
Definition legendColors : list (option string) :=
  imap
    (fun i value =>
       match legendValues !! (i + 1) with
       | None => None
       | Some nextValue =>
           Some (getColorForCorrelation ((value + nextValue) / 2)%float)
       end)
    legendValues.

End HeatmapView.

(** ** pages/StockPage.tsx: the price change shown in the header *)

Module StockPageSummary.

Record Summary := mkSummary {
  currentPrice : float;
  previousPrice : float;
  priceChange : float;
  priceChangePercent : float
}.

Definition summary (stockData : list StockPrice) : Summary :=
  let currentPrice := orElse (price <$> stockData !! 0) 0%float in
  let previousPrice := orElse (price <$> stockData !! 1) currentPrice in
  let priceChange := (currentPrice - previousPrice)%float in
  let priceChangePercent := ((priceChange / previousPrice) * 100)%float in
  {| currentPrice := currentPrice;
     previousPrice := previousPrice;
     priceChange := priceChange;
     priceChangePercent := priceChangePercent |}.

End StockPageSummary.

(** ** pages/CorrelationPage.tsx: the list of tickers *)

Module CorrelationPage.

Inductive Severity := success | error | warning | info.

Record Snackbar := mkSnackbar {
  open : bool;
  message : string;
  severity : Severity
}.

(** The state of the page that its handlers read and write ([timeRange] is
    only passed to the data source). *)
Record PageState := mkPageState {
  tickers : list string;
  newTicker : string;
  stockData : StockData;
  loading : bool;
  errorText : option string;
  snackbar : Snackbar
}.

Definition DEFAULT_TICKERS : list string :=
  ["AAPL"; "MSFT"; "GOOGL"; "AMZN"; "META"].

Definition initialState : PageState :=
  {| tickers := DEFAULT_TICKERS;
     newTicker := EmptyString;
     stockData := [];
     loading := true;
     errorText := None;
     snackbar := {| open := false; message := EmptyString;
                    severity := success |} |}.

Definition setTickers (value : list string) (st : PageState) : PageState :=
  {| tickers := value; newTicker := newTicker st; stockData := stockData st;
     loading := loading st; errorText := errorText st;
     snackbar := snackbar st |}.

Definition setNewTicker (value : string) (st : PageState) : PageState :=
  {| tickers := tickers st; newTicker := value; stockData := stockData st;
     loading := loading st; errorText := errorText st;
     snackbar := snackbar st |}.

Definition setStockData (value : StockData) (st : PageState) : PageState :=
  {| tickers := tickers st; newTicker := newTicker st; stockData := value;
     loading := loading st; errorText := errorText st;
     snackbar := snackbar st |}.

Definition setLoading (value : bool) (st : PageState) : PageState :=
  {| tickers := tickers st; newTicker := newTicker st;
     stockData := stockData st; loading := value;
     errorText := errorText st; snackbar := snackbar st |}.

Definition setError (value : option string) (st : PageState) : PageState :=
  {| tickers := tickers st; newTicker := newTicker st;
     stockData := stockData st; loading := loading st;
     errorText := value; snackbar := snackbar st |}.

Definition setSnackbar (value : Snackbar) (st : PageState) : PageState :=
  {| tickers := tickers st; newTicker := newTicker st;
     stockData := stockData st; loading := loading st;
     errorText := errorText st; snackbar := value |}.

(** [tickers.includes(ticker)] *)
Definition includes (ticker : string) (tickers : list string) : bool :=
  existsb (String.eqb ticker) tickers.

Section Handlers.

(** [String.prototype.trim] and [String.prototype.toUpperCase]. *)
Variable trim : string -> string.
Variable toUpperCase : string -> string.

Definition handleAddTicker (st : PageState) : PageState :=
  if String.eqb (trim (newTicker st)) EmptyString then st
  else
    let ticker := toUpperCase (trim (newTicker st)) in
    if includes ticker (tickers st) then
      setSnackbar
        {| open := true;
           message :=
             String.concat EmptyString
               ["Ticker "; ticker; " is already in the list."];
           severity := warning |} st
    else
      setNewTicker EmptyString (setTickers (tickers st ++ [ticker]) st).

Definition handleRemoveTicker (tickerToRemove : string) (st : PageState)
    : PageState :=
  if Nat.leb (length (tickers st)) 1 then
    setSnackbar
      {| open := true; message := "You need at least one ticker.";
         severity := warning |} st
  else
    setTickers
      (List.filter (fun ticker => negb (String.eqb ticker tickerToRemove))
         (tickers st))
      st.

Definition handleCloseSnackbar (st : PageState) : PageState :=
  setSnackbar
    {| open := false; message := message (snackbar st);
       severity := severity (snackbar st) |} st.

(** [loadStockData] up to its [await]: [tickers] is the list captured by
    the callback. *)
Definition loadStockDataStart (tickers : list string) (st : PageState)
    : PageState :=
  if Nat.eqb (length tickers) 0 then setStockData [] st
  else setError None (setLoading true st).

(** "Filter out tickers that have no data". *)
Definition validTickers (data : StockData) : list string :=
  map fst (List.filter (fun entry => Nat.ltb 0 (length (snd entry))) data).

(** [loadStockData] after its [await]: [fetched] is the record that
    [fetchAllStocks] resolved with, or [None] when it rejected. *)
Definition loadStockDataDone (tickers : list string)
    (fetched : option StockData) (st : PageState) : PageState :=
  let st :=
    match fetched with
    | Some data =>
        let validTickers := validTickers data in
        let st :=
          if negb (Nat.eqb (length validTickers) (length tickers)) then
            let st := setTickers validTickers st in
            if Nat.eqb (length validTickers) 0 then
              setError (Some "No data available for the selected tickers.") st
            else if Nat.ltb (length validTickers) (length tickers) then
              setSnackbar
                {| open := true;
                   message :=
                     String.append
                       "No data available for some tickers. Showing data for: "
                       (String.concat ", " validTickers);
                   severity := warning |} st
            else st
          else st in
        setStockData data st
    | None =>
        setSnackbar
          {| open := true;
             message := "Failed to load stock data. Please try again later.";
             severity := error |}
          (setError
             (Some "Failed to load stock data. Please try again later.") st)
    end in
  setLoading false st.

End Handlers.

End CorrelationPage.


(** * Vocabulary of the properties *)

(** ** The statistics as the specification words them *)

Section StatisticsVocabulary.
Local Open Scope float_scope.

(** The left-to-right sum that [reduce] computes from 0. *)
Definition sumOf (values : list float) : float :=
  fold_left (fun acc v => acc + v) values 0.

(** The population standard deviation as the specification words it: the
    square root of the mean (the sum divided by N) of the squared
    deviations from the mean. *)
Definition populationStdDev (values : list float) : float :=
  let N := of_length (length values) in
  let mean := sumOf values / N in
  PrimFloat.sqrt (sumOf (map (fun v => (v - mean) * (v - mean)) values) / N).

(** The same formula normalised by N - 1 (the sample deviation). *)
Definition sampleStdDev (values : list float) : float :=
  let N := of_length (length values) in
  let mean := sumOf values / N in
  PrimFloat.sqrt
    (sumOf (map (fun v => (v - mean) * (v - mean)) values) / (N - 1)).

(** The sums with the two sequences exchanged. *)
Definition swapSums (acc : Sums) : Sums :=
  {| covariance := covariance acc;
     variance1 := variance2 acc;
     variance2 := variance1 acc |}.

(** First differences as the specification words them:
    [diffs[i-1] = prices[i] - prices[i-1]]. *)
Fixpoint firstDifferences (prices : list float) : list float :=
  match prices with
  | previous :: (current :: _) as rest =>
      (current - previous) :: firstDifferences rest
  | _ => []
  end.

(** The helper as the specification words it. *)
Definition lagOneAutocorrelation (prices : list float) : float :=
  let diffs := firstDifferences prices in
  if Nat.leb (length diffs) 1 then 0
  else calculateCorrelation (removelast diffs) (tl diffs).

End StatisticsVocabulary.

(** ** [Date] runtimes for the worked examples

    Timestamps have the 24-character form that [toISOString] prints
    ([YYYY-MM-DDTHH:mm:ss.sssZ]) with a year from 0100 to 9999 and a day
    that exists in the calendar; on these the definitions are the built-in
    [Date]. Any other string is taken as one that does not parse. *)

(** The value of a decimal digit. *)
Definition digitValue (c : ascii) : nat := nat_of_ascii c - 48.

(** The number written by a string of digits. *)
Fixpoint numberOfDigits (acc : nat) (digits : string) : nat :=
  match digits with
  | EmptyString => acc
  | String c rest => numberOfDigits (10 * acc + digitValue c) rest
  end.

(** The number written at a position of a timestamp. *)
Definition fieldAt (start len : nat) (timestamp : string) : nat :=
  numberOfDigits 0 (String.substring start len timestamp).

(** The last [width] decimal digits of [n]. *)
Fixpoint padded (width n : nat) : string :=
  match width with
  | 0 => EmptyString
  | S w => String (ascii_of_nat (48 + (n / 10 ^ w) mod 10)) (padded w n)
  end.

Definition isDigit (c : ascii) : bool :=
  Nat.leb 48 (nat_of_ascii c) && Nat.leb (nat_of_ascii c) 57.

Fixpoint allDigits (s : string) : bool :=
  match s with
  | EmptyString => true
  | String c rest => isDigit c && allDigits rest
  end.

Definition charIs (i : nat) (c : ascii) (s : string) : bool :=
  match String.get i s with
  | Some c' => Ascii.eqb c' c
  | None => false
  end.

(** The form [YYYY-MM-DDTHH:mm:ss.sssZ]. *)
Definition isoShape (timestamp : string) : bool :=
  Nat.eqb (String.length timestamp) 24
  && allDigits (String.substring 0 4 timestamp)
  && charIs 4 "-" timestamp
  && allDigits (String.substring 5 2 timestamp)
  && charIs 7 "-" timestamp
  && allDigits (String.substring 8 2 timestamp)
  && charIs 10 "T" timestamp
  && allDigits (String.substring 11 2 timestamp)
  && charIs 13 ":" timestamp
  && allDigits (String.substring 14 2 timestamp)
  && charIs 16 ":" timestamp
  && allDigits (String.substring 17 2 timestamp)
  && charIs 19 "." timestamp
  && allDigits (String.substring 20 3 timestamp)
  && charIs 23 "Z" timestamp.

Definition isLeapYear (year : nat) : bool :=
  Nat.eqb (year mod 4) 0
  && (negb (Nat.eqb (year mod 100) 0) || Nat.eqb (year mod 400) 0).

(** The days of a month counted from 1. *)
Definition daysInMonth (year month : nat) : nat :=
  match month with
  | 2 => if isLeapYear year then 29 else 28
  | 4 | 6 | 9 | 11 => 30
  | _ => 31
  end.

(** The fields written in a timestamp, read as an instant of UTC. *)
Definition utcLocalFields (timestamp : string) : option DateFields :=
  let year := fieldAt 0 4 timestamp in
  let month := fieldAt 5 2 timestamp in
  let day := fieldAt 8 2 timestamp in
  let hours := fieldAt 11 2 timestamp in
  let minutes := fieldAt 14 2 timestamp in
  let seconds := fieldAt 17 2 timestamp in
  if isoShape timestamp
     && Nat.leb 100 year
     && Nat.leb 1 month && Nat.leb month 12
     && Nat.leb 1 day && Nat.leb day (daysInMonth year month)
     && Nat.leb hours 23 && Nat.leb minutes 59 && Nat.leb seconds 59
  then
    Some {| fullYear := year;
            month := month - 1;
            date := day;
            hours := hours;
            minutes := minutes;
            seconds := seconds;
            milliseconds := fieldAt 20 3 timestamp |}
  else None.

Definition utcISOString (f : DateFields) : string :=
  String.concat EmptyString
    [ padded 4 (fullYear f); "-"; padded 2 (month f + 1); "-";
      padded 2 (date f); "T"; padded 2 (hours f); ":"; padded 2 (minutes f);
      ":"; padded 2 (seconds f); "."; padded 3 (milliseconds f); "Z" ]%string.

(** [Date] where local time is UTC. *)
Definition utcRuntime : DateRuntime :=
  {| localFields := utcLocalFields; toISOString := utcISOString |}.





(** ** Buckets, shared buckets and expected cells *)

Section AlignerVocabulary.
Variable runtime : DateRuntime.

(** Every timestamp of a series parses. *)
Definition parses (prices : list StockPrice) : Prop :=
  Forall (fun item => is_Some (localFields runtime (timestamp item))) prices.

(** Every timestamp of the input parses. *)
Definition validData (stockData : StockData) : Prop :=
  Forall (fun entry => parses (snd entry)) stockData.

(** The samples of a series as pairs of a bucket key and a price, when
    every timestamp parses. *)
Fixpoint samples (prices : list StockPrice)
    : option (list (string * float)) :=
  match prices with
  | [] => Some []
  | item :: rest =>
      key ← roundedTime runtime (timestamp item);
      entries ← samples rest;
      Some ((key, price item) :: entries)
  end.

(** The buckets of a list of keyed samples, in order. *)
Definition buckets (entries : list (string * float)) : list string :=
  map fst entries.


(** The buckets of the first map that the second map has, in the order of
    the first map. *)
Definition sharedBuckets (timeMap1 timeMap2 : JSMap.t) : list string :=
  List.filter (fun k => JSMap.has k timeMap2) (JSMap.keys timeMap1).

Definition pairAt (timeMap1 timeMap2 : JSMap.t) (k : string) : AlignedPrice :=
  {| price1 := JSMap.get_asserted k timeMap1;
     price2 := JSMap.get_asserted k timeMap2 |}.

(** One step of the loop that fills a bucket map, on a keyed sample. *)
Definition setSample (m : JSMap.t) (entry : string * float) : JSMap.t :=
  JSMap.set (fst entry) (snd entry) m.

(** The map built from keyed samples. *)
Definition mapOf (entries : list (string * float)) : JSMap.t :=
  fold_left setSample entries JSMap.empty.

Variable stockData : StockData.

(** The correlation of two series after alignment. *)
Definition pairCorrelation (series1 series2 : list StockPrice)
    : option float :=
  alignedPrices ← alignPricesByTimestamp runtime series1 series2;
  Some (calculateCorrelation
          (map price1 alignedPrices) (map price2 alignedPrices)).

(** The content of a cell of the finished matrix: 1 on the diagonal, and
    elsewhere the correlation of the two series taken in the order of
    their tickers. *)
Definition expectedCell (a b : string) : option float :=
  if String.eqb a b then Some 1%float
  else if String.ltb a b then
    series1 ← property a stockData;
    series2 ← property b stockData;
    pairCorrelation series1 series2
  else
    series1 ← property b stockData;
    series2 ← property a stockData;
    pairCorrelation series1 series2.

(** A cell that holds its final content. *)
Definition final (matrix : Matrix) (a b : string) : Prop :=
  cell matrix a b = expectedCell a b.

End AlignerVocabulary.

(** ** Series of the worked examples *)

(** Samples: ticker, price, timestamp. *)
Definition seriesA : list StockPrice :=
  [ mkStockPrice "AAPL" 10 "2024-03-01T09:00:12.000Z";
    mkStockPrice "AAPL" 11 "2024-03-01T09:01:07.500Z";
    mkStockPrice "AAPL" 12 "2024-03-01T09:02:59.999Z" ].

Definition seriesB : list StockPrice :=
  [ mkStockPrice "MSFT" 21 "2024-03-01T09:01:30.000Z";
    mkStockPrice "MSFT" 22 "2024-03-01T09:02:00.000Z";
    mkStockPrice "MSFT" 23 "2024-03-01T09:03:44.250Z" ].

(** Two symbols with the prices 1, 2, 4 in the same three minutes. *)
Definition risingSeries (symbol : string) : list StockPrice :=
  [ mkStockPrice symbol 1 "2024-03-01T09:00:00.000Z";
    mkStockPrice symbol 2 "2024-03-01T09:01:00.000Z";
    mkStockPrice symbol 4 "2024-03-01T09:02:00.000Z" ].

(** The second series with its first two samples exchanged. *)
Definition seriesB' : list StockPrice :=
  [ mkStockPrice "MSFT" 22 "2024-03-01T09:02:00.000Z";
    mkStockPrice "MSFT" 21 "2024-03-01T09:01:30.000Z";
    mkStockPrice "MSFT" 23 "2024-03-01T09:03:44.250Z" ].

(** ** Shapes of a matrix *)

Section MatrixVocabulary.
Implicit Types (matrix : Matrix) (row col a b : string) (v : float).

(** Writing the same value at [(row, col)] and [(col, row)]. *)
Definition setPair matrix row col v : option Matrix :=
  matrix ← setCell matrix row col v; setCell matrix col row v.

(** A matrix whose rows and cells are exactly those of the tickers. *)
Definition populated (tickers : list string) matrix : Prop :=
  (forall a, a ∈ tickers -> is_Some (matrix !! a))
  /\ (forall a b, is_Some (cell matrix a b) <-> a ∈ tickers /\ b ∈ tickers).

Definition symmetric matrix : Prop :=
  forall a b, cell matrix a b = cell matrix b a.

(** A row holding 0 for every ticker and nothing else. *)
Definition zeroRow (tickers : list string) (r : gmap string float) : Prop :=
  forall b, r !! b = if decide (b ∈ tickers) then Some 0%float else None.

End MatrixVocabulary.

(** ** Colours, ranges and reachable page states *)

(** The position of a colour on the scale from dark red (0) to dark
    green (4). *)
Definition colorRank (color : string) : nat :=
  if String.eqb color "#2e7d32" then 4
  else if String.eqb color "#689f38" then 3
  else if String.eqb color "#9e9e9e" then 2
  else if String.eqb color "#ef6c00" then 1
  else 0.

(** A number between -1 and 1 (so not NaN). *)
Definition inUnitRange (v : float) : bool :=
  ((-1 <=? v) && (v <=? 1))%float.

(** What the heat map stores for two series: the clamped correlation of
    their first [min] prices, by position. *)
Definition heatmapCorrelation (series1 series2 : list StockPrice) : float :=
  let prices1 := map price series1 in
  let prices2 := map price series2 in
  let minLength := Nat.min (length prices1) (length prices2) in
  let alignedPrices1 := firstn minLength prices1 in
  let alignedPrices2 := firstn minLength prices2 in
  let n := length alignedPrices1 in
  if Nat.eqb n 0 then 0%float
  else
    let avg1 := calculateAverage alignedPrices1 in
    let avg2 := calculateAverage alignedPrices2 in
    let acc := sumsLoop n alignedPrices1 alignedPrices2 avg1 avg2 in
    let correlation :=
      if (0 <? variance1 acc)%float && (0 <? variance2 acc)%float
      then (covariance acc
            / (Math_sqrt (variance1 acc) * Math_sqrt (variance2 acc)))%float
      else 0%float in
    Math_max (-1)%float (Math_min 1%float correlation).

(** A stored number that is NaN or lies between -1 and 1. *)
Definition clampedValue (v : float) : Prop :=
  PrimFloat.is_nan v = true \/ inUnitRange v = true.

(** The cells of the symbols at positions [i] and [j] of the input hold
    what the heat map stores for their series. *)
Definition heatFinal (stockData : StockData) (matrix : Matrix) (i j : nat)
    : Prop :=
  forall a b sa sb,
    Object_keys stockData !! i = Some a ->
    Object_keys stockData !! j = Some b ->
    property a stockData = Some sa ->
    property b stockData = Some sb ->
    cell matrix a b = Some (heatmapCorrelation sa sb)
    /\ cell matrix b a = Some (heatmapCorrelation sa sb).

(** An aligned pair with its two prices exchanged. *)
Definition swapPair (p : AlignedPrice) : AlignedPrice :=
  {| price1 := price2 p; price2 := price1 p |}.

(** The states of the correlation page that its events can produce; the
    record a load resolves with is an object, so its keys are distinct. *)
Inductive reachable (trim toUpperCase : string -> string)
    : CorrelationPage.PageState -> Prop :=
| reach_initial :
    reachable trim toUpperCase CorrelationPage.initialState
| reach_typed st value :
    reachable trim toUpperCase st ->
    reachable trim toUpperCase (CorrelationPage.setNewTicker value st)
| reach_add st :
    reachable trim toUpperCase st ->
    reachable trim toUpperCase
      (CorrelationPage.handleAddTicker trim toUpperCase st)
| reach_remove st ticker :
    reachable trim toUpperCase st ->
    reachable trim toUpperCase (CorrelationPage.handleRemoveTicker ticker st)
| reach_close st :
    reachable trim toUpperCase st ->
    reachable trim toUpperCase (CorrelationPage.handleCloseSnackbar st)
| reach_load_start st tickers :
    reachable trim toUpperCase st ->
    reachable trim toUpperCase (CorrelationPage.loadStockDataStart tickers st)
| reach_load_done st tickers fetched :
    reachable trim toUpperCase st ->
    (forall data, fetched = Some data -> NoDup (Object_keys data)) ->
    reachable trim toUpperCase
      (CorrelationPage.loadStockDataDone tickers fetched st).

(** ** Sums of squares *)

(** A binary64 value that is NaN or has a clear sign bit. *)
Definition signClear (x : spec_float) : Prop :=
  match x with
  | S754_zero s | S754_infinity s | S754_finite s _ _ => s = false
  | S754_nan => True
  end.

(** The clamp of the heat map. *)
Definition clamp (correlation : float) : float :=
  Math_max (-1)%float (Math_min 1%float correlation).

(** ** Trimming and upper case on ASCII text, for the worked examples *)

Definition upperAscii (c : ascii) : ascii :=
  let n := nat_of_ascii c in
  if Nat.leb 97 n && Nat.leb n 122 then ascii_of_nat (n - 32) else c.

Fixpoint asciiToUpperCase (s : string) : string :=
  match s with
  | EmptyString => EmptyString
  | String c rest => String (upperAscii c) (asciiToUpperCase rest)
  end.

Fixpoint trimStart (s : string) : string :=
  match s with
  | EmptyString => EmptyString
  | String c rest => if Ascii.eqb c " " then trimStart rest else s
  end.

Fixpoint trimEnd (s : string) : string :=
  match s with
  | EmptyString => EmptyString
  | String c rest =>
      match trimEnd rest with
      | EmptyString =>
          if Ascii.eqb c " " then EmptyString else String c EmptyString
      | kept => String c kept
      end
  end.

Definition asciiTrim (s : string) : string := trimEnd (trimStart s).

(** * Properties *)

(** ** Facts on binary64 arithmetic

    Proved from the specification of the primitive operations
    ([mul_spec], [div_spec], ... relate them to [SpecFloat]). *)

Section FloatFacts.
Local Open Scope Z_scope.

Lemma SFmul_comm (x y : spec_float) : SF64mul x y = SF64mul y x.
Proof.
  unfold SF64mul, SFmul.
  destruct x as [sx| sx| |sx mx ex], y as [sy| sy| |sy my ey];
    try reflexivity; try (f_equal; apply xorb_comm).
  rewrite (xorb_comm sx sy), (Pos.mul_comm mx my), (Z.add_comm ex ey).
  reflexivity.
Qed.

Lemma float_mul_comm (x y : float) : (x * y)%float = (y * x)%float.
Proof. apply Prim2SF_inj. rewrite !mul_spec. apply SFmul_comm. Qed.

Lemma Prim2SF_one : Prim2SF 1%float = S754_finite false 4503599627370496 (-52).
Proof. reflexivity. Qed.

Lemma Prim2SF_zero : Prim2SF 0%float = S754_zero false.
Proof. reflexivity. Qed.

Lemma div_eucl_exact (q b : Z) : 0 < b -> Z.div_eucl (q * b) b = (q, 0).
Proof.
  intros Hb.
  pose proof (Z.div_mul q b ltac:(lia)) as Hq.
  pose proof (Z.mod_mul q b ltac:(lia)) as Hr.
  unfold Z.div, Z.modulo in Hq, Hr.
  destruct (Z.div_eucl (q * b) b) as [q' r']. simpl in *. congruence.
Qed.

(** A valid binary64 mantissa has 53 digits, or fewer at the least exponent. *)
Lemma valid_finite_cases (s : bool) (m : positive) (e : Z) :
  valid_binary (S754_finite s m e) = true ->
  e <= 971 /\
  ((Zpos (digits2_pos m) = 53 /\ -1074 < e)
   \/ (e = -1074 /\ Zpos (digits2_pos m) <= 53)).
Proof.
  unfold valid_binary, SpecFloat.valid_binary, bounded, canonical_mantissa,
    fexp, SpecFloat.emin, prec, emax.
  intros H. apply andb_prop in H as [H1 H2].
  apply Z.eqb_eq in H1. apply Z.leb_le in H2.
  lia.
Qed.

Lemma fexp_eq (z : Z) : fexp prec emax z = Z.max (z - 53) (-1074).
Proof. reflexivity. Qed.

Lemma core_exponent (m : positive) (e : Z) :
  Z.pos (digits2_pos m) <= 53 -> -1074 <= e ->
  IntDef.Z.min
    (fexp prec emax
       (Zdigits2 (Z.pos m) + e - (Zdigits2 4503599627370496 + -52)))
    (e - -52)
  = Z.max (Z.pos (digits2_pos m) + e - 54) (-1074).
Proof.
  intros Hd He.
  change IntDef.Z.min with Z.min.
  rewrite fexp_eq. unfold Zdigits2.
  change (Z.pos (digits2_pos 4503599627370496)) with 53.
  lia.
Qed.

(** Rounding a mantissa that is already canonical changes nothing. *)
Lemma round_exact (s : bool) (m : positive) (e : Z) :
  valid_binary (S754_finite s m e) = true ->
  binary_round_aux prec emax s (Z.pos m) e loc_Exact = S754_finite s m e.
Proof.
  intros Hv. apply valid_finite_cases in Hv as [Hmax Hc].
  unfold binary_round_aux, shr_fexp. rewrite fexp_eq. cbn [Zdigits2].
  replace (Z.max (Z.pos (digits2_pos m) + e - 53) (-1074) - e) with 0 by lia.
  cbn [shr shr_record_of_loc shr_m loc_of_shr_record round_nearest_even].
  rewrite fexp_eq. cbn [Zdigits2].
  replace (Z.max (Z.pos (digits2_pos m) + e - 53) (-1074) - e) with 0 by lia.
  cbn [shr shr_m].
  replace (e <=? emax - prec) with true; [reflexivity|].
  symmetry. apply Z.leb_le. unfold emax, prec. lia.
Qed.

Lemma SFdiv_one (s : bool) (m : positive) (e : Z) :
  valid_binary (S754_finite s m e) = true ->
  SF64div (S754_finite s m e) (S754_finite false 4503599627370496 (-52))
  = S754_finite s m e.
Proof.
  intros Hv. pose proof (round_exact s m e Hv) as Hr.
  apply valid_finite_cases in Hv as [Hmax [[Hd He]|[He Hd]]].
  - unfold SF64div, SFdiv, SFdiv_core_binary.
    rewrite core_exponent, Hd by lia.
    replace (Z.max (53 + e - 54) (-1074)) with (e - 1) by lia.
    replace (e - -52 - (e - 1)) with 53 by lia.
    change IntDef.Z.shiftl with Z.shiftl.
    rewrite Z.shiftl_mul_pow2 by lia.
    replace (Z.pos m * 2 ^ 53) with (Z.pos (xO m) * 4503599627370496) by lia.
    change IntDef.Z.div_eucl with Z.div_eucl.
    rewrite div_eucl_exact by lia.
    change (new_location 4503599627370496 0) with loc_Exact.
    rewrite xorb_false_r.
    unfold binary_round_aux, shr_fexp.
    rewrite fexp_eq. cbn [Zdigits2 digits2_pos]. rewrite Pos2Z.inj_succ, Hd.
    replace (Z.max (Z.succ 53 + (e - 1) - 53) (-1074) - (e - 1)) with 1 by lia.
    cbn [shr shr_record_of_loc SpecFloat.iter_pos shr_1 orb shr_m
         loc_of_shr_record round_nearest_even].
    replace (e - 1 + 1) with e by lia.
    rewrite fexp_eq. cbn [Zdigits2]. rewrite Hd.
    replace (Z.max (53 + e - 53) (-1074) - e) with 0 by lia.
    cbn [shr shr_m].
    replace (e <=? emax - prec) with true; [reflexivity|].
    symmetry. apply Z.leb_le. unfold emax, prec. lia.
  - unfold SF64div, SFdiv, SFdiv_core_binary.
    rewrite core_exponent by lia. subst e.
    replace (Z.max (Z.pos (digits2_pos m) + -1074 - 54) (-1074))
      with (-1074) by lia.
    change (-1074 - -52 - -1074) with 52.
    change IntDef.Z.shiftl with Z.shiftl.
    rewrite Z.shiftl_mul_pow2 by lia.
    change (2 ^ 52) with 4503599627370496.
    change IntDef.Z.div_eucl with Z.div_eucl.
    rewrite div_eucl_exact by lia.
    change (new_location 4503599627370496 0) with loc_Exact.
    rewrite xorb_false_r.
    exact Hr.
Qed.

(** Division by 1 is exact, for every number. *)
Lemma float_div_one (x : float) : (x / 1)%float = x.
Proof.
  apply Prim2SF_inj. rewrite div_spec, Prim2SF_one.
  pose proof (Prim2SF_valid x) as Hv.
  destruct (Prim2SF x) as [s| s| |s m e] eqn:E; try reflexivity.
  - unfold SF64div, SFdiv. now rewrite xorb_false_r.
  - unfold SF64div, SFdiv. now rewrite xorb_false_r.
  - now apply SFdiv_one.
Qed.

(** The shape of a finite number. *)
Lemma is_finite_cases (x : float) :
  PrimFloat.is_finite x = true ->
  (exists s, Prim2SF x = S754_zero s)
  \/ (exists s m e, Prim2SF x = S754_finite s m e).
Proof.
  unfold PrimFloat.is_finite, is_nan, is_infinity.
  rewrite !FloatAxioms.eqb_spec, abs_spec.
  destruct (Prim2SF x) as [s| s| |s m e]; intros H.
  - left. now exists s.
  - destruct s; discriminate H.
  - discriminate H.
  - right. now exists s, m, e.
Qed.

(** [x - (0 + x)] is a zero for finite [x]: the difference taken between a
    value and the mean of the one-element sequence holding it. *)
Lemma sub_zero_add_self (x : float) :
  PrimFloat.is_finite x = true ->
  exists s, Prim2SF (x - (0 + x))%float = S754_zero s.
Proof.
  intros [[s E] | (s & m & e & E)]%is_finite_cases;
    rewrite sub_spec, add_spec, Prim2SF_zero, E.
  - destruct s; cbn; eauto.
  - cbn [SF64add SFadd SF64sub SFsub].
    rewrite Z.sub_diag. cbn. eauto.
Qed.

(** The square of a zero is [+0]. *)
Lemma square_of_zero (d : float) (s : bool) :
  Prim2SF d = S754_zero s -> (d * d)%float = 0%float.
Proof.
  intros E. apply Prim2SF_inj. rewrite mul_spec, E.
  destruct s; reflexivity.
Qed.

(** [x - x] is [+0] for finite [x]. *)
Lemma sub_diag_finite (x : float) :
  PrimFloat.is_finite x = true -> (x - x)%float = 0%float.
Proof.
  intros [[s E] | (s & m & e & E)]%is_finite_cases;
    apply Prim2SF_inj; rewrite sub_spec, E.
  - destruct s; reflexivity.
  - cbn [SF64sub SFsub]. rewrite Z.sub_diag. reflexivity.
Qed.

(** Comparisons: the order is antisymmetric, and total away from NaN. *)
Lemma SFcompare_antisym (x y : spec_float) :
  SFcompare y x = option_map CompOpp (SFcompare x y).
Proof.
  destruct x as [sx| sx| |sx mx ex], y as [sy| sy| |sy my ey];
    try reflexivity;
    try (destruct sx; reflexivity);
    try (destruct sy; reflexivity);
    try (destruct sx, sy; reflexivity).
  cbn [SFcompare option_map].
  change IntDef.Z.compare with Z.compare.
  change PosDef.Pos.compare_cont with Pos.compare_cont.
  rewrite (Z.compare_antisym ex ey).
  pose proof (Pos.compare_cont_antisym mx my Eq) as Hm. cbn [CompOpp] in Hm.
  destruct sx, sy; try reflexivity;
    destruct (ex ?= ey); cbn [CompOpp]; try reflexivity;
    rewrite Hm; now rewrite ?CompOpp_involutive.
Qed.

Lemma is_nan_false (x : float) :
  PrimFloat.is_nan x = false -> Prim2SF x <> S754_nan.
Proof.
  unfold PrimFloat.is_nan. rewrite FloatAxioms.eqb_spec. intros H E.
  rewrite E in H. discriminate H.
Qed.

Lemma float_ltb_leb (a b : float) :
  (a <? b)%float = true -> (a <=? b)%float = true.
Proof.
  rewrite ltb_spec, leb_spec. unfold SFltb, SFleb.
  now destruct (SFcompare (Prim2SF a) (Prim2SF b)) as [[]|].
Qed.

Lemma float_not_ltb_leb (a b : float) :
  PrimFloat.is_nan a = false -> PrimFloat.is_nan b = false ->
  (a <? b)%float = false -> (b <=? a)%float = true.
Proof.
  intros Ha%is_nan_false Hb%is_nan_false.
  rewrite ltb_spec, leb_spec. unfold SFltb, SFleb.
  rewrite (SFcompare_antisym (Prim2SF a) (Prim2SF b)).
  destruct (SFcompare (Prim2SF a) (Prim2SF b)) as [[]|] eqn:E; try easy.
  exfalso. destruct (Prim2SF a), (Prim2SF b); easy.
Qed.

End FloatFacts.

(** ** Descriptive statistics *)

Section StatisticsProperties.
Local Open Scope float_scope.

Lemma calculateAverage_nonempty (prices : list float) :
  prices <> [] ->
  calculateAverage prices = sumOf prices / of_length (length prices).
Proof. destruct prices; [congruence | reflexivity]. Qed.

Lemma calculateStandardDeviation_population (prices : list float) :
  prices <> [] ->
  calculateStandardDeviation prices = populationStdDev prices.
Proof.
  intros Hne. unfold calculateStandardDeviation, populationStdDev.
  destruct prices as [|p rest]; [congruence|].
  cbn [length Nat.eqb].
  rewrite (calculateAverage_nonempty (map _ (p :: rest))) by discriminate.
  rewrite (calculateAverage_nonempty (p :: rest)) by discriminate.
  now rewrite length_map.
Qed.

Lemma calculateStandardDeviation_single (x : float) :
  PrimFloat.is_finite x = true -> calculateStandardDeviation [x] = 0.
Proof.
  intros Hx. unfold calculateStandardDeviation, calculateAverage, Math_pow2.
  cbn [length Nat.eqb map fold_left].
  change (of_length 1) with 1. rewrite !float_div_one.
  destruct (sub_zero_add_self x Hx) as [s Hs].
  rewrite (square_of_zero _ s Hs). reflexivity.
Qed.

(** C7: on the empty sequence the mean and the standard deviation are the
    number 0, which is not NaN; both functions are total, so there is no
    error result. *)
Theorem empty_statistics_are_zero :
  calculateAverage [] = 0
  /\ calculateStandardDeviation [] = 0
  /\ PrimFloat.is_nan (calculateAverage []) = false
  /\ PrimFloat.is_nan (calculateStandardDeviation []) = false.
Proof. repeat split. Qed.

(** The claim of C8 fails at a single infinite value: the deviation of
    [Infinity] is NaN, not 0. *)
Lemma stdDev_single_infinity_is_nan :
  calculateStandardDeviation [infinity] = nan
  /\ calculateStandardDeviation [infinity] <> 0.
Proof.
  assert (E : calculateStandardDeviation [infinity] = nan)
    by (vm_compute; reflexivity).
  split; [exact E|]. rewrite E. intros H.
  apply (f_equal Prim2SF) in H. discriminate H.
Qed.

(** C8, for finite values: [calculateStandardDeviation] is the population
    standard deviation, normalised by N: on every non-empty sequence it is
    the square root of the mean of the squared deviations from the mean
    ([populationStdDev], the sums taken from left to right). The mean of
    [100,102,98,104] is 101 and its deviation is the binary64 square root of
    5, between 2.2355 and 2.2365, the binary64 numbers written in
    hexadecimal below (normalised by N - 1 it would exceed 2.58). The
    deviation of a single finite value is 0. *)
Theorem stdDev_is_population_deviation :
  (forall prices, prices <> [] ->
     calculateStandardDeviation prices = populationStdDev prices)
  /\ calculateAverage [100; 102; 98; 104] = 101
  /\ calculateStandardDeviation [100; 102; 98; 104] = PrimFloat.sqrt 5
  /\ (0x1.1e24dd2f1a9fcp+1 <? calculateStandardDeviation [100; 102; 98; 104])
     = true
  /\ (calculateStandardDeviation [100; 102; 98; 104] <? 0x1.1e45a1cac0831p+1)
     = true
  /\ (0x1.4a3d70a3d70a4p+1 <? sampleStdDev [100; 102; 98; 104]) = true
  /\ (forall x, PrimFloat.is_finite x = true ->
        calculateStandardDeviation [x] = 0).
Proof.
  split; [exact calculateStandardDeviation_population|].
  repeat (split; [vm_compute; reflexivity|]).
  exact calculateStandardDeviation_single.
Qed.

Lemma stdDev_is_population_deviation_witness :
  [100; 102; 98; 104] <> []
  /\ PrimFloat.is_finite 100 = true
  /\ calculateStandardDeviation [100; 102; 98; 104]
     = populationStdDev [100; 102; 98; 104]
  /\ calculateStandardDeviation [100] = 0.
Proof.
  split; [discriminate|]. split; [reflexivity|].
  split.
  - apply (proj1 stdDev_is_population_deviation). discriminate.
  - apply (proj2 (proj2 (proj2 (proj2 (proj2 (proj2
             stdDev_is_population_deviation)))))).
    reflexivity.
Defined.

End StatisticsProperties.

(** ** The correlation function *)

Section CorrelationProperties.
Local Open Scope float_scope.

Lemma sumsStep_swap prices1 prices2 avg1 avg2 acc i :
  sumsStep prices2 prices1 avg2 avg1 (swapSums acc) i
  = swapSums (sumsStep prices1 prices2 avg1 avg2 acc i).
Proof.
  unfold sumsStep, swapSums. cbn.
  now rewrite (float_mul_comm (at_index prices2 i - avg2)).
Qed.

Lemma sumsFold_swap prices1 prices2 avg1 avg2 indices acc :
  fold_left (sumsStep prices2 prices1 avg2 avg1) indices (swapSums acc)
  = swapSums (fold_left (sumsStep prices1 prices2 avg1 avg2) indices acc).
Proof.
  revert acc. induction indices as [|i indices IH]; intros acc; [reflexivity|].
  cbn [fold_left]. now rewrite sumsStep_swap, IH.
Qed.

Lemma sumsLoop_swap n prices1 prices2 avg1 avg2 :
  sumsLoop n prices2 prices1 avg2 avg1
  = swapSums (sumsLoop n prices1 prices2 avg1 avg2).
Proof. unfold sumsLoop. now rewrite <- sumsFold_swap. Qed.

Lemma calculateCorrelation_comm (prices1 prices2 : list float) :
  calculateCorrelation prices1 prices2 = calculateCorrelation prices2 prices1.
Proof.
  unfold calculateCorrelation.
  destruct (Nat.eqb_spec (length prices1) (length prices2)) as [E|NE].
  - rewrite <- E, Nat.eqb_refl. cbn [negb orb].
    destruct (Nat.eqb (length prices1) 0); [reflexivity|].
    rewrite (sumsLoop_swap (length prices1) prices1 prices2).
    generalize (sumsLoop (length prices1) prices1 prices2
                  (calculateAverage prices1) (calculateAverage prices2)).
    intros acc. cbn [swapSums covariance variance1 variance2].
    rewrite (orb_comm (PrimFloat.is_zero (variance2 acc))).
    now rewrite (float_mul_comm (Math_sqrt (variance2 acc))).
  - destruct (Nat.eqb_spec (length prices2) (length prices1)) as [E'|_];
      [congruence | reflexivity].
Qed.

(** A number that is not NaN is [===] to itself. *)
Lemma float_eqb_refl (x : float) :
  PrimFloat.is_nan x = false -> (x =? x) = true.
Proof. unfold PrimFloat.is_nan. now destruct (x =? x). Qed.

(** C9: the correlation does not depend on the order of its two arguments:
    both orders return the same number. This holds for all sequences, so in
    particular for those of equal nonzero length with non-constant values;
    when that number is not NaN the two results are also equal for the
    comparison [===]. *)
Theorem calculateCorrelation_symmetric (prices1 prices2 : list float) :
  calculateCorrelation prices1 prices2 = calculateCorrelation prices2 prices1
  /\ (PrimFloat.is_nan (calculateCorrelation prices1 prices2) = false ->
      (calculateCorrelation prices1 prices2
       =? calculateCorrelation prices2 prices1) = true).
Proof.
  split; [apply calculateCorrelation_comm|].
  intros Hnan. rewrite (calculateCorrelation_comm prices2 prices1).
  now apply float_eqb_refl.
Qed.

Lemma calculateCorrelation_symmetric_witness :
  PrimFloat.is_nan (calculateCorrelation [1; 2; 3; 5] [9; 7; 8; 2]) = false
  /\ calculateCorrelation [1; 2; 3; 5] [9; 7; 8; 2]
     = calculateCorrelation [9; 7; 8; 2] [1; 2; 3; 5]
  /\ (calculateCorrelation [1; 2; 3; 5] [9; 7; 8; 2]
      =? calculateCorrelation [9; 7; 8; 2] [1; 2; 3; 5]) = true.
Proof.
  split; [reflexivity|].
  split.
  - apply (proj1 (calculateCorrelation_symmetric [1; 2; 3; 5] [9; 7; 8; 2])).
  - apply (proj2 (calculateCorrelation_symmetric [1; 2; 3; 5] [9; 7; 8; 2])).
    reflexivity.
Defined.

(** *** Degenerate inputs *)

Lemma calculateCorrelation_length_mismatch (prices1 prices2 : list float) :
  length prices1 <> length prices2 -> calculateCorrelation prices1 prices2 = 0.
Proof.
  intros NE. unfold calculateCorrelation.
  now destruct (Nat.eqb_spec (length prices1) (length prices2)).
Qed.

Lemma calculateCorrelation_nil_l (prices2 : list float) :
  calculateCorrelation [] prices2 = 0.
Proof.
  unfold calculateCorrelation. cbn [length].
  now rewrite Nat.eqb_refl, orb_true_r.
Qed.

Lemma calculateCorrelation_zero_variance (prices1 prices2 : list float) :
  let acc := sumsLoop (length prices1) prices1 prices2
               (calculateAverage prices1) (calculateAverage prices2) in
  PrimFloat.is_zero (variance1 acc) = true
  \/ PrimFloat.is_zero (variance2 acc) = true ->
  calculateCorrelation prices1 prices2 = 0.
Proof.
  intros acc H. unfold calculateCorrelation. fold acc.
  destruct (negb _ || _); [reflexivity|].
  now destruct H as [-> | ->]; rewrite ?orb_true_r.
Qed.

(** The squared deviations of a sequence whose elements all equal its mean
    add up to [+0]. *)
Lemma variance1_of_exact_mean prices1 prices2 avg1 avg2 indices acc :
  variance1 acc = 0 ->
  Forall (fun i => at_index prices1 i - avg1 = 0) indices ->
  variance1 (fold_left (sumsStep prices1 prices2 avg1 avg2) indices acc) = 0.
Proof.
  intros Hacc Hall. revert acc Hacc.
  induction Hall as [|i indices Hi _ IH]; intros acc Hacc; [exact Hacc|].
  cbn [fold_left]. apply IH.
  unfold sumsStep. cbn [variance1]. now rewrite Hi, Hacc.
Qed.

Lemma at_index_repeat (c : float) (n i : nat) :
  (i < n)%nat -> at_index (repeat c n) i = c.
Proof.
  unfold at_index. revert i. induction n as [|n IH]; intros i Hi; [lia|].
  destruct i as [|i]; cbn; [reflexivity | apply IH; lia].
Qed.

Lemma calculateCorrelation_constant_l (c : float) (n : nat) prices2 :
  PrimFloat.is_finite c = true ->
  calculateAverage (repeat c n) = c ->
  calculateCorrelation (repeat c n) prices2 = 0.
Proof.
  intros Hc Havg. apply calculateCorrelation_zero_variance. left.
  rewrite Havg, repeat_length. unfold sumsLoop.
  rewrite variance1_of_exact_mean; [reflexivity | reflexivity |].
  apply Forall_forall. intros i Hi%elem_of_seq.
  rewrite at_index_repeat by lia. now apply sub_diag_finite.
Qed.

(** The claim of C4 fails on a constant sequence whose mean is not computed
    exactly: three times 0.1 (the binary64 number nearest to it, written in
    hexadecimal) has the mean 0.10000000000000002, so the deviations are
    not zero and the result against [1,2,4] is 1.19e-16, not 0. *)
Lemma constant_sequence_nonzero_correlation :
  let c := 0x1.999999999999ap-4 in
  calculateAverage [c; c; c] = 0x1.999999999999bp-4
  /\ calculateCorrelation [c; c; c] [1; 2; 4] = 0x1.11acee560242ap-53
  /\ calculateCorrelation [c; c; c] [1; 2; 4] <> 0.
Proof.
  cbv zeta.
  assert (E : calculateCorrelation
                [0x1.999999999999ap-4; 0x1.999999999999ap-4;
                 0x1.999999999999ap-4] [1; 2; 4] = 0x1.11acee560242ap-53)
    by (vm_compute; reflexivity).
  split; [vm_compute; reflexivity|]. split; [exact E|].
  rewrite E. intros H. apply (f_equal Prim2SF) in H. discriminate H.
Qed.

(** C4, with the variance read on the computed sums: the correlation
    function is total and returns 0 for sequences of different lengths, when
    either sequence is empty, and when either accumulated sum of squared
    deviations ([variance1], [variance2]) compares equal to 0; the latter is
    the case for a constant finite sequence whose computed mean equals the
    constant. *)
Theorem calculateCorrelation_degenerate_zero (prices1 prices2 : list float) :
  (length prices1 <> length prices2 ->
     calculateCorrelation prices1 prices2 = 0)
  /\ (prices1 = [] \/ prices2 = [] ->
        calculateCorrelation prices1 prices2 = 0)
  /\ (let acc := sumsLoop (length prices1) prices1 prices2
                   (calculateAverage prices1) (calculateAverage prices2) in
      PrimFloat.is_zero (variance1 acc) = true
      \/ PrimFloat.is_zero (variance2 acc) = true ->
      calculateCorrelation prices1 prices2 = 0)
  /\ (forall c n,
        PrimFloat.is_finite c = true ->
        (prices1 = repeat c n /\ calculateAverage prices1 = c)
        \/ (prices2 = repeat c n /\ calculateAverage prices2 = c) ->
        calculateCorrelation prices1 prices2 = 0).
Proof.
  split; [apply calculateCorrelation_length_mismatch|].
  split.
  { intros [-> | ->]; [|rewrite calculateCorrelation_comm];
      apply calculateCorrelation_nil_l. }
  split; [apply calculateCorrelation_zero_variance|].
  intros c n Hc [[-> Havg] | [-> Havg]];
    [|rewrite calculateCorrelation_comm];
    now apply calculateCorrelation_constant_l.
Qed.

Lemma calculateCorrelation_degenerate_zero_witness :
  (length [1; 2; 3] <> length [1; 2]
   /\ calculateCorrelation [1; 2; 3] [1; 2] = 0)
  /\ ((([] : list float) = [] \/ [1; 2] = [])
      /\ calculateCorrelation [] [1; 2] = 0)
  /\ ((PrimFloat.is_zero
         (variance1 (sumsLoop 3 [10; 10; 10] [1; 2; 4]
                       (calculateAverage [10; 10; 10])
                       (calculateAverage [1; 2; 4]))) = true
       \/ PrimFloat.is_zero
            (variance2 (sumsLoop 3 [10; 10; 10] [1; 2; 4]
                          (calculateAverage [10; 10; 10])
                          (calculateAverage [1; 2; 4]))) = true)
      /\ calculateCorrelation [10; 10; 10] [1; 2; 4] = 0)
  /\ (PrimFloat.is_finite 10 = true
      /\ ([1; 2; 4] = repeat 10 3 /\ calculateAverage [1; 2; 4] = 10
          \/ [10; 10; 10] = repeat 10 3 /\ calculateAverage [10; 10; 10] = 10)
      /\ calculateCorrelation [1; 2; 4] [10; 10; 10] = 0).
Proof.
  split; [split; [cbn; lia|]|].
  { apply (proj1 (calculateCorrelation_degenerate_zero [1; 2; 3] [1; 2])).
    cbn; lia. }
  split; [split; [now left|]|].
  { apply (proj1 (proj2 (calculateCorrelation_degenerate_zero [] [1; 2]))).
    now left. }
  split; [split; [left; reflexivity|]|].
  { apply (proj1 (proj2 (proj2
             (calculateCorrelation_degenerate_zero [10; 10; 10] [1; 2; 4])))).
    left. reflexivity. }
  split; [reflexivity|]. split; [right; split; reflexivity|].
  apply (proj2 (proj2 (proj2
           (calculateCorrelation_degenerate_zero [1; 2; 4] [10; 10; 10])))
           10 3%nat); [reflexivity|].
  right. split; reflexivity.
Defined.

(** *** The range of the result *)

(** C1 fails on [calculateCorrelation]: the correlation of [1,2,4] with
    itself is 1.0000000000000002, the binary64 number next above 1. The
    quotient is returned as computed; the matrix of the heat map clamps the
    same quotient with [Math.max(-1, Math.min(1, correlation))]. *)
Theorem calculateCorrelation_exceeds_one :
  calculateCorrelation [1; 2; 4] [1; 2; 4] = 0x1.0000000000001p+0
  /\ (1 <? calculateCorrelation [1; 2; 4] [1; 2; 4]) = true
  /\ (calculateCorrelation [1; 2; 4] [1; 2; 4] <=? 1) = false
  /\ Math_max (-1) (Math_min 1 (calculateCorrelation [1; 2; 4] [1; 2; 4])) = 1.
Proof. repeat split; vm_compute; reflexivity. Qed.

(** The clamp of the heat map, [Math.max(-1, Math.min(1, correlation))],
    brings every number that is not NaN into the interval, and keeps NaN. *)
Lemma heatmap_clamp_range (correlation : float) :
  PrimFloat.is_nan correlation = false ->
  (-1 <=? Math_max (-1) (Math_min 1 correlation)) = true
  /\ (Math_max (-1) (Math_min 1 correlation) <=? 1) = true.
Proof.
  intros Hc.
  assert (Hmin : Math_min 1 correlation
                 = if 1 <? correlation then 1 else correlation).
  { unfold Math_min. rewrite Hc. cbn [orb PrimFloat.is_nan].
    change (PrimFloat.is_nan 1) with false. cbn [orb].
    change (PrimFloat.get_sign 1) with false.
    now destruct (1 <? correlation), (correlation <? 1). }
  set (m := Math_min 1 correlation) in *.
  assert (Hm : PrimFloat.is_nan m = false /\ (m <=? 1) = true).
  { rewrite Hmin. destruct (1 <? correlation) eqn:E; [now split|].
    split; [exact Hc|]. now apply float_not_ltb_leb. }
  destruct Hm as [Hnan Hle].
  assert (Hmax : Math_max (-1) m
                 = if -1 <? m then m else if m <? -1 then -1 else m).
  { unfold Math_max. rewrite Hnan.
    change (PrimFloat.is_nan (-1)) with false. cbn [orb].
    change (PrimFloat.get_sign (-1)) with true. reflexivity. }
  rewrite Hmax.
  destruct (-1 <? m) eqn:E1.
  - split; [now apply float_ltb_leb | exact Hle].
  - destruct (m <? -1) eqn:E2; [now split|].
    split; [|exact Hle]. now apply float_not_ltb_leb.
Qed.

Lemma heatmap_clamp_nan : Math_max (-1) (Math_min 1 nan) = nan.
Proof. reflexivity. Qed.

(** Finite inputs whose squares overflow give NaN. *)
Lemma calculateCorrelation_overflow_nan :
  PrimFloat.is_finite 0x1p+600 = true
  /\ calculateCorrelation [0x1p+600; 0] [0x1p+600; 0] = nan.
Proof. split; vm_compute; reflexivity. Qed.

End CorrelationProperties.

(** ** Lag-1 correlation of the price changes (StockPage) *)

Section LagOne.
Local Open Scope float_scope.

Lemma push_loop {A B : Type} (f : A -> B) (items : list A) (init : list B) :
  fold_left (fun acc i => acc ++ [f i]) items init = init ++ map f items.
Proof.
  revert init. induction items as [|i items IH]; intros init; cbn.
  - now rewrite app_nil_r.
  - now rewrite IH, <- app_assoc.
Qed.

Lemma priceChanges_map (prices : list float) :
  StockPage.priceChanges prices
  = map (fun i => at_index prices i - at_index prices (i - 1))
      (seq 1 (length prices - 1)).
Proof. unfold StockPage.priceChanges. now rewrite push_loop. Qed.

Lemma firstDifferences_cons (previous current : float) (rest : list float) :
  firstDifferences (previous :: current :: rest)
  = (current - previous) :: firstDifferences (current :: rest).
Proof. reflexivity. Qed.

Lemma priceChanges_firstDifferences (prices : list float) :
  StockPage.priceChanges prices = firstDifferences prices.
Proof.
  rewrite priceChanges_map.
  induction prices as [|previous rest IH]; [reflexivity|].
  destruct rest as [|current rest]; [reflexivity|].
  rewrite firstDifferences_cons, <- IH.
  cbn [length Nat.sub]. rewrite Nat.sub_0_r. cbn [seq map].
  f_equal. rewrite <- seq_shift, map_map.
  apply map_ext_in. intros i Hi%in_seq.
  destruct i as [|i]; [lia|]. cbn. now rewrite Nat.sub_0_r.
Qed.

Lemma length_priceChanges (prices : list float) :
  length (StockPage.priceChanges prices) = (length prices - 1)%nat.
Proof. now rewrite priceChanges_map, length_map, length_seq. Qed.

Lemma priceChanges_at (prices : list float) (i : nat) :
  (1 <= i < length prices)%nat ->
  at_index (StockPage.priceChanges prices) (i - 1)
  = at_index prices i - at_index prices (i - 1).
Proof.
  intros Hi. rewrite priceChanges_map. unfold at_index at 1.
  rewrite (nth_indep _ nan
             (at_index prices 0 - at_index prices (0 - 1)))
    by (rewrite length_map, length_seq; lia).
  rewrite (map_nth (fun i => at_index prices i - at_index prices (i - 1))).
  rewrite seq_nth by lia. now replace (1 + (i - 1))%nat with i by lia.
Qed.

Lemma correlation_lagOne (prices : list float) :
  StockPage.correlation prices = lagOneAutocorrelation prices.
Proof.
  unfold StockPage.correlation, lagOneAutocorrelation.
  rewrite priceChanges_firstDifferences.
  set (diffs := firstDifferences prices).
  destruct (Nat.ltb_spec 1 (length diffs)) as [Hlt|Hge];
    destruct (Nat.leb_spec (length diffs) 1) as [Hle|Hgt]; try lia;
    [|reflexivity].
  rewrite removelast_firstn_len.
  replace (Init.Nat.pred (length diffs)) with (length diffs - 1)%nat by lia.
  now destruct diffs.
Qed.

(** C6: the price changes are the first differences
    [prices[i] - prices[i-1]], one fewer than the prices; with one change or
    none the result is 0, otherwise it is the correlation of the changes
    without the last one against the changes without the first one; for
    [10,10,10] the changes are [0,0], the one pair has zero variance and
    the result is 0. *)
Theorem lag_one_autocorrelation (prices : list float) :
  length (StockPage.priceChanges prices) = (length prices - 1)%nat
  /\ (forall i, (1 <= i < length prices)%nat ->
        at_index (StockPage.priceChanges prices) (i - 1)
        = at_index prices i - at_index prices (i - 1))
  /\ StockPage.priceChanges prices = firstDifferences prices
  /\ ((length (StockPage.priceChanges prices) <= 1)%nat ->
        StockPage.correlation prices = 0)
  /\ ((1 < length (StockPage.priceChanges prices))%nat ->
        StockPage.correlation prices
        = calculateCorrelation
            (removelast (StockPage.priceChanges prices))
            (tl (StockPage.priceChanges prices)))
  /\ StockPage.correlation prices = lagOneAutocorrelation prices
  /\ StockPage.priceChanges [10; 10; 10] = [0; 0]
  /\ PrimFloat.is_zero
       (variance1 (sumsLoop 1 [0] [0] (calculateAverage [0])
                     (calculateAverage [0]))) = true
  /\ StockPage.correlation [10; 10; 10] = 0.
Proof.
  split; [apply length_priceChanges|].
  split; [apply priceChanges_at|].
  split; [apply priceChanges_firstDifferences|].
  split; [|split; [|split; [apply correlation_lagOne | repeat split]]].
  - intros Hle. rewrite correlation_lagOne. unfold lagOneAutocorrelation.
    rewrite <- priceChanges_firstDifferences.
    now destruct (Nat.leb_spec (length (StockPage.priceChanges prices)) 1);
      [|lia].
  - intros Hlt. rewrite correlation_lagOne. unfold lagOneAutocorrelation.
    rewrite <- priceChanges_firstDifferences.
    now destruct (Nat.leb_spec (length (StockPage.priceChanges prices)) 1);
      [lia|].
Qed.

Lemma lag_one_autocorrelation_witness :
  ((1 <= 2 < length [10; 12; 15; 11]%float)%nat
   /\ at_index (StockPage.priceChanges [10; 12; 15; 11]) (2 - 1) = 15 - 12)
  /\ ((length (StockPage.priceChanges [10; 12]%float) <= 1)%nat
      /\ StockPage.correlation [10; 12] = 0)
  /\ ((1 < length (StockPage.priceChanges [10; 12; 15; 11]%float))%nat
      /\ StockPage.correlation [10; 12; 15; 11]
         = calculateCorrelation [2; 3] [3; -4]).
Proof.
  split; [split; [cbn; lia|]|split; [split; [cbn; lia|]|split; [cbn; lia|]]].
  - apply (proj1 (proj2 (lag_one_autocorrelation [10; 12; 15; 11]))).
    cbn; lia.
  - apply (proj1 (proj2 (proj2 (proj2 (lag_one_autocorrelation [10; 12]))))).
    cbn; lia.
  - apply (proj1 (proj2 (proj2 (proj2 (proj2
             (lag_one_autocorrelation [10; 12; 15; 11])))))).
    cbn; lia.
Defined.

End LagOne.

(** ** The insertion-ordered map *)

Section JSMapProperties.

Lemma JSMap_has_keys (k : string) (m : JSMap.t) :
  JSMap.has k m = true <-> k ∈ JSMap.keys m.
Proof.
  unfold JSMap.has, JSMap.keys.
  induction m as [|[k' v'] rest IH]; cbn.
  - split; [discriminate | intros H; inversion H].
  - destruct (String.eqb_spec k' k) as [->|NE].
    + split; [intros _; left | reflexivity].
    + rewrite IH, elem_of_cons. intuition congruence.
Qed.

Lemma JSMap_has_false (k : string) (m : JSMap.t) :
  JSMap.has k m = false <-> k ∉ JSMap.keys m.
Proof.
  rewrite <- JSMap_has_keys. destruct (JSMap.has k m); intuition congruence.
Qed.

Lemma JSMap_keys_set (k : string) (v : float) (m : JSMap.t) :
  JSMap.keys (JSMap.set k v m)
  = if JSMap.has k m then JSMap.keys m else JSMap.keys m ++ [k].
Proof.
  unfold JSMap.has, JSMap.keys.
  induction m as [|[k' v'] rest IH]; cbn; [reflexivity|].
  destruct (String.eqb_spec k' k) as [->|NE]; [reflexivity|].
  cbn. rewrite IH. now destruct (JSMap.get k rest).
Qed.



Lemma JSMap_keys_set_elem (k k' : string) (v : float) (m : JSMap.t) :
  k' ∈ JSMap.keys (JSMap.set k v m) <-> k' = k \/ k' ∈ JSMap.keys m.
Proof.
  rewrite JSMap_keys_set.
  destruct (JSMap.has k m) eqn:E.
  - apply JSMap_has_keys in E. intuition (subst; auto).
  - rewrite elem_of_app, list_elem_of_singleton. tauto.
Qed.

Lemma JSMap_keys_set_NoDup (k : string) (v : float) (m : JSMap.t) :
  NoDup (JSMap.keys m) -> NoDup (JSMap.keys (JSMap.set k v m)).
Proof.
  intros ND. rewrite JSMap_keys_set.
  destruct (JSMap.has k m) eqn:E; [exact ND|].
  apply JSMap_has_false in E.
  apply NoDup_app. split; [exact ND|]. split.
  - intros x Hx ->%list_elem_of_singleton. contradiction.
  - apply NoDup_singleton.
Qed.


End JSMapProperties.

(** ** Alignment by minute bucket *)

Section AlignerProperties.
Variable runtime : DateRuntime.
Implicit Types (entries : list (string * float)) (prices : list StockPrice).

Lemma mapOf_fold_keys entries (m : JSMap.t) (k : string) :
  k ∈ JSMap.keys (fold_left setSample entries m)
  <-> k ∈ JSMap.keys m \/ k ∈ buckets entries.
Proof.
  revert m. induction entries as [|entry entries IH]; intros m;
    cbn [fold_left buckets map].
  - rewrite elem_of_nil. tauto.
  - rewrite IH. fold (buckets entries). unfold setSample.
    rewrite JSMap_keys_set_elem, elem_of_cons. tauto.
Qed.

Lemma mapOf_keys entries (k : string) :
  k ∈ JSMap.keys (mapOf entries) <-> k ∈ buckets entries.
Proof.
  unfold mapOf. rewrite mapOf_fold_keys.
  cbn. rewrite elem_of_nil. tauto.
Qed.

Lemma mapOf_fold_NoDup entries (m : JSMap.t) :
  NoDup (JSMap.keys m) ->
  NoDup (JSMap.keys (fold_left setSample entries m)).
Proof.
  revert m. induction entries as [|entry entries IH]; intros m ND; cbn;
    [exact ND|].
  apply IH. now apply JSMap_keys_set_NoDup.
Qed.

Lemma mapOf_keys_NoDup entries : NoDup (JSMap.keys (mapOf entries)).
Proof. apply mapOf_fold_NoDup. apply NoDup_nil_2. Qed.





Lemma conditional_push_loop {A B : Type} (keep : A -> bool) (f : A -> B)
    (items : list A) (init : list B) :
  fold_left (fun acc x => if keep x then acc ++ [f x] else acc) items init
  = init ++ map f (List.filter keep items).
Proof.
  revert init. induction items as [|x items IH]; intros init; cbn.
  - now rewrite app_nil_r.
  - rewrite IH. destruct (keep x); [|reflexivity].
    cbn. now rewrite <- app_assoc.
Qed.

(** *** Timestamps that do not parse *)

Lemma roundedTime_None (timestamp : string) :
  roundedTime runtime timestamp = None
  <-> localFields runtime timestamp = None.
Proof.
  unfold roundedTime. now destruct (localFields runtime timestamp).
Qed.

Lemma roundedTime_is_Some (timestamp : string) :
  is_Some (roundedTime runtime timestamp)
  <-> is_Some (localFields runtime timestamp).
Proof.
  unfold roundedTime. destruct (localFields runtime timestamp); cbn.
  - split; eauto.
  - split; intros [? ?]; discriminate.
Qed.

Lemma samples_parses prices :
  is_Some (samples runtime prices) <-> parses runtime prices.
Proof.
  unfold parses. induction prices as [|item prices IH]; cbn [samples].
  - split; [constructor | eauto].
  - rewrite Forall_cons, <- IH, <- roundedTime_is_Some.
    destruct (roundedTime runtime (timestamp item)) as [key|]; cbn.
    + destruct (samples runtime prices) as [entries|]; cbn.
      * split; eauto.
      * split; [intros [? ?]; discriminate | intros [_ [? ?]]; discriminate].
    + split; [intros [? ?]; discriminate | intros [[? ?] _]; discriminate].
Qed.

(** The loop over the samples builds the map of the keyed samples, and
    throws when a timestamp does not parse. *)
Lemma timeMap_fold prices (m : JSMap.t) :
  forEach
    (fun m item =>
       key ← roundedTime runtime (timestamp item);
       Some (JSMap.set key (price item) m))
    prices m
  = (fun entries => fold_left setSample entries m)
    <$> samples runtime prices.
Proof.
  revert m. induction prices as [|item prices IH]; intros m; [reflexivity|].
  cbn [forEach samples].
  destruct (roundedTime runtime (timestamp item)) as [key|]; [|reflexivity].
  cbn [mbind option_bind]. rewrite IH.
  now destruct (samples runtime prices).
Qed.

Lemma timeMap_samples prices :
  timeMap runtime prices = mapOf <$> samples runtime prices.
Proof. unfold timeMap. now rewrite timeMap_fold. Qed.

Lemma timeMap_parses prices :
  is_Some (timeMap runtime prices) <-> parses runtime prices.
Proof.
  rewrite timeMap_samples, <- samples_parses.
  destruct (samples runtime prices); cbn; split; eauto;
    intros [? ?]; discriminate.
Qed.

Lemma alignPricesByTimestamp_parses prices1 prices2 :
  is_Some (alignPricesByTimestamp runtime prices1 prices2)
  <-> parses runtime prices1 /\ parses runtime prices2.
Proof.
  rewrite <- !timeMap_parses. unfold alignPricesByTimestamp.
  destruct (timeMap runtime prices1) as [timeMap1|]; cbn.
  - destruct (timeMap runtime prices2) as [timeMap2|]; cbn.
    + split; eauto.
    + split; [intros [? ?]; discriminate | intros [_ [? ?]]; discriminate].
  - split; [intros [? ?]; discriminate | intros [[? ?] _]; discriminate].
Qed.

(** *** The join *)

Lemma alignPricesByTimestamp_join prices1 prices2 entries1 entries2 :
  samples runtime prices1 = Some entries1 ->
  samples runtime prices2 = Some entries2 ->
  alignPricesByTimestamp runtime prices1 prices2
  = Some (map (pairAt (mapOf entries1) (mapOf entries2))
            (sharedBuckets (mapOf entries1) (mapOf entries2))).
Proof.
  intros E1 E2. unfold alignPricesByTimestamp.
  rewrite !timeMap_samples, E1, E2. cbn.
  unfold sharedBuckets, pairAt. now rewrite conditional_push_loop.
Qed.

Lemma sharedBuckets_elem entries1 entries2 (k : string) :
  k ∈ sharedBuckets (mapOf entries1) (mapOf entries2)
  <-> k ∈ buckets entries1 /\ k ∈ buckets entries2.
Proof.
  unfold sharedBuckets.
  rewrite list_elem_of_In, filter_In, <- list_elem_of_In.
  now rewrite JSMap_has_keys, !mapOf_keys.
Qed.

Lemma sharedBuckets_NoDup entries1 entries2 :
  NoDup (sharedBuckets (mapOf entries1) (mapOf entries2)).
Proof.
  unfold sharedBuckets.
  apply NoDup_ListNoDup, List.NoDup_filter, NoDup_ListNoDup.
  apply mapOf_keys_NoDup.
Qed.

Lemma sharedBuckets_nil entries1 entries2 :
  (forall k, k ∈ buckets entries1 -> k ∉ buckets entries2) ->
  sharedBuckets (mapOf entries1) (mapOf entries2) = [].
Proof.
  intros Hdisj.
  destruct (sharedBuckets _ _) as [|k rest] eqn:E; [reflexivity|].
  assert (Hk : k ∈ sharedBuckets (mapOf entries1) (mapOf entries2))
    by (rewrite E; left).
  apply sharedBuckets_elem in Hk as [H1 H2]. now apply Hdisj in H1.
Qed.


Lemma sharedBuckets_size entries1 entries2 :
  length (sharedBuckets (mapOf entries1) (mapOf entries2))
  = size ((list_to_set (JSMap.keys (mapOf entries1)) : gset string)
          ∩ list_to_set (JSMap.keys (mapOf entries2))).
Proof.
  rewrite <- (size_list_to_set (C := gset string))
    by apply sharedBuckets_NoDup.
  f_equal. apply set_eq. intros k.
  rewrite elem_of_intersection, !elem_of_list_to_set.
  now rewrite sharedBuckets_elem, !mapOf_keys.
Qed.



(** The alignment of two series whose timestamps parse. *)
Lemma alignPricesByTimestamp_valid prices1 prices2 :
  parses runtime prices1 -> parses runtime prices2 ->
  exists entries1 entries2,
    samples runtime prices1 = Some entries1
    /\ samples runtime prices2 = Some entries2
    /\ alignPricesByTimestamp runtime prices1 prices2
       = Some (map (pairAt (mapOf entries1) (mapOf entries2))
                 (sharedBuckets (mapOf entries1) (mapOf entries2))).
Proof.
  intros [entries1 E1]%samples_parses [entries2 E2]%samples_parses.
  exists entries1, entries2. split; [exact E1|]. split; [exact E2|].
  now apply alignPricesByTimestamp_join.
Qed.

End AlignerProperties.




(** The two alignments of the same series in either order: the same pairs
    up to the exchange of the fields, in a different order. *)
Lemma alignment_order_differs :
  alignPricesByTimestamp utcRuntime seriesA seriesB'
  = Some [ {| price1 := 11; price2 := 21 |};
           {| price1 := 12; price2 := 22 |} ]
  /\ alignPricesByTimestamp utcRuntime seriesB' seriesA
     = Some [ {| price1 := 22; price2 := 12 |};
              {| price1 := 21; price2 := 11 |} ].
Proof. split; reflexivity. Qed.

(** C10: aligning two series in either order gives the same number of pairs,
    the number of buckets that are keys of both bucket maps (and both
    orders throw on the same inputs: when a timestamp does not parse); the
    order of the pairs can differ, as for [seriesA] and [seriesB']. *)
Theorem alignment_length_symmetric
    (runtime : DateRuntime) (prices1 prices2 : list StockPrice) :
  length <$> alignPricesByTimestamp runtime prices1 prices2
  = length <$> alignPricesByTimestamp runtime prices2 prices1
  /\ (forall timeMap1 timeMap2,
        timeMap runtime prices1 = Some timeMap1 ->
        timeMap runtime prices2 = Some timeMap2 ->
        length <$> alignPricesByTimestamp runtime prices1 prices2
        = Some (size ((list_to_set (JSMap.keys timeMap1) : gset string)
                      ∩ list_to_set (JSMap.keys timeMap2)))
        /\ length <$> alignPricesByTimestamp runtime prices2 prices1
           = Some (size ((list_to_set (JSMap.keys timeMap1) : gset string)
                         ∩ list_to_set (JSMap.keys timeMap2))))
  /\ (exists pairs12 pairs21,
        alignPricesByTimestamp utcRuntime seriesA seriesB' = Some pairs12
        /\ alignPricesByTimestamp utcRuntime seriesB' seriesA = Some pairs21
        /\ map price1 pairs12 <> map price2 pairs21).
Proof.
  assert (Hsizes : forall timeMap1 timeMap2,
             timeMap runtime prices1 = Some timeMap1 ->
             timeMap runtime prices2 = Some timeMap2 ->
             length <$> alignPricesByTimestamp runtime prices1 prices2
             = Some (size ((list_to_set (JSMap.keys timeMap1) : gset string)
                           ∩ list_to_set (JSMap.keys timeMap2)))
             /\ length <$> alignPricesByTimestamp runtime prices2 prices1
                = Some (size ((list_to_set (JSMap.keys timeMap1)
                                 : gset string)
                              ∩ list_to_set (JSMap.keys timeMap2)))).
  { intros timeMap1 timeMap2. rewrite !timeMap_samples.
    destruct (samples runtime prices1) as [entries1|] eqn:E1;
      [|discriminate].
    destruct (samples runtime prices2) as [entries2|] eqn:E2;
      [|discriminate].
    cbn. intros [= <-] [= <-].
    rewrite (alignPricesByTimestamp_join runtime _ _ _ _ E1 E2).
    rewrite (alignPricesByTimestamp_join runtime _ _ _ _ E2 E1).
    cbn. rewrite !length_map, !sharedBuckets_size.
    split; [reflexivity|]. do 2 f_equal. apply intersection_comm_L. }
  split; [|split; [exact Hsizes|]].
  - destruct (timeMap runtime prices1) as [timeMap1|] eqn:E1.
    + destruct (timeMap runtime prices2) as [timeMap2|] eqn:E2.
      * destruct (Hsizes timeMap1 timeMap2 eq_refl eq_refl) as [-> ->].
        reflexivity.
      * unfold alignPricesByTimestamp. rewrite E1, E2. reflexivity.
    + unfold alignPricesByTimestamp. rewrite E1.
      now destruct (timeMap runtime prices2).
  - destruct alignment_order_differs as [E12 E21].
    eexists _, _. split; [exact E12|]. split; [exact E21|].
    intros H. apply (f_equal (fun l => nth 0 l 0%float)) in H.
    cbn in H. apply (f_equal Prim2SF) in H. vm_compute in H. discriminate H.
Qed.

(** ** Loops and matrix cells *)

Section LoopRules.
Context {St A : Type}.

(** A loop invariant indexed by the items already visited. *)
Lemma forEach_visited (body : St -> A -> option St)
    (P : list A -> St -> Prop) (arr : list A) :
  (forall visited item st,
      item ∈ arr -> P visited st ->
      exists st', body st item = Some st' /\ P (visited ++ [item]) st') ->
  forall st, P [] st ->
  exists st', forEach body arr st = Some st' /\ P arr st'.
Proof.
  intros Hstep.
  assert (Hgen : forall rest visited st,
             (forall item, item ∈ rest -> item ∈ arr) ->
             P visited st ->
             exists st', forEach body rest st = Some st'
                         /\ P (visited ++ rest) st').
  { induction rest as [|item rest IH]; intros visited st Hsub HP.
    - exists st. now rewrite app_nil_r.
    - destruct (Hstep visited item st) as (st1 & E1 & HP1);
        [apply Hsub; left | exact HP |].
      destruct (IH (visited ++ [item]) st1) as (st2 & E2 & HP2);
        [intros x Hx; apply Hsub; now right | exact HP1 |].
      exists st2. cbn. rewrite E1. cbn. split; [exact E2|].
      now rewrite <- app_assoc in HP2. }
  intros st HP. apply (Hgen arr [] st); auto.
Qed.

(** A plain invariant of an indexed loop. *)
Lemma forEachFrom_invariant (body : St -> A -> nat -> option St)
    (Inv : St -> Prop) (arr : list A) :
  (forall item i st,
      item ∈ arr -> Inv st ->
      exists st', body st item i = Some st' /\ Inv st') ->
  forall i st, Inv st ->
  exists st', forEachFrom body i arr st = Some st' /\ Inv st'.
Proof.
  intros Hstep.
  assert (Hgen : forall rest i st,
             (forall item, item ∈ rest -> item ∈ arr) ->
             Inv st ->
             exists st', forEachFrom body i rest st = Some st' /\ Inv st').
  { induction rest as [|item rest IH]; intros i st Hsub HI.
    - now exists st.
    - destruct (Hstep item i st) as (st1 & E1 & HI1);
        [apply Hsub; left | exact HI |].
      destruct (IH (S i) st1) as (st2 & E2 & HI2);
        [intros x Hx; apply Hsub; now right | exact HI1 |].
      exists st2. cbn. rewrite E1. cbn. now split. }
  intros i st HI. apply (Hgen arr i st); auto.
Qed.

End LoopRules.

Section CellRules.
Implicit Types (matrix : Matrix) (row col a b : string) (v : float).

Lemma setCell_Some matrix row col v :
  is_Some (matrix !! row) -> is_Some (setCell matrix row col v).
Proof. intros [r Hr]. unfold setCell. rewrite Hr. cbn. eauto. Qed.

Lemma setCell_rows matrix matrix' row col v a :
  setCell matrix row col v = Some matrix' ->
  is_Some (matrix' !! a) <-> is_Some (matrix !! a).
Proof.
  unfold setCell. destruct (matrix !! row) as [r|] eqn:Hr; [|discriminate].
  cbn. intros [= <-].
  destruct (decide (row = a)) as [->|NE].
  - rewrite lookup_insert_eq, Hr. split; eauto.
  - now rewrite lookup_insert_ne.
Qed.

Lemma cell_setCell matrix matrix' row col v a b :
  setCell matrix row col v = Some matrix' ->
  cell matrix' a b
  = if decide (a = row /\ b = col) then Some v else cell matrix a b.
Proof.
  unfold setCell, cell.
  destruct (matrix !! row) as [r|] eqn:Hr; [|discriminate].
  cbn. intros [= <-].
  destruct (decide (row = a)) as [->|NE].
  - rewrite lookup_insert_eq, Hr. cbn.
    destruct (decide (col = b)) as [->|NEc].
    + rewrite lookup_insert_eq. now rewrite decide_True.
    + rewrite lookup_insert_ne by done. rewrite decide_False; [done|].
      intros [_ ->]. contradiction.
  - rewrite lookup_insert_ne by done. rewrite decide_False; [done|].
    intros [-> _]. contradiction.
Qed.

Lemma setPair_Some matrix row col v :
  is_Some (matrix !! row) -> is_Some (matrix !! col) ->
  is_Some (setPair matrix row col v).
Proof.
  intros Hr Hc. unfold setPair.
  destruct (setCell_Some matrix row col v Hr) as [m1 E1]. rewrite E1. cbn.
  apply setCell_Some. now apply (setCell_rows _ _ _ _ _ _ E1).
Qed.

Lemma setPair_rows matrix matrix' row col v a :
  setPair matrix row col v = Some matrix' ->
  is_Some (matrix' !! a) <-> is_Some (matrix !! a).
Proof.
  unfold setPair. destruct (setCell matrix row col v) as [m1|] eqn:E1;
    [|discriminate].
  cbn. intros E2.
  rewrite (setCell_rows _ _ _ _ _ _ E2). apply (setCell_rows _ _ _ _ _ _ E1).
Qed.

Lemma cell_setPair matrix matrix' row col v a b :
  setPair matrix row col v = Some matrix' ->
  cell matrix' a b
  = if decide ((a = row /\ b = col) \/ (a = col /\ b = row)) then Some v
    else cell matrix a b.
Proof.
  unfold setPair. destruct (setCell matrix row col v) as [m1|] eqn:E1;
    [|discriminate].
  cbn. intros E2.
  rewrite (cell_setCell _ _ _ _ _ _ _ E2), (cell_setCell _ _ _ _ _ _ _ E1).
  repeat case_decide; intuition congruence.
Qed.

Lemma setPair_populated tickers matrix matrix' row col v :
  row ∈ tickers -> col ∈ tickers ->
  populated tickers matrix ->
  setPair matrix row col v = Some matrix' ->
  populated tickers matrix'.
Proof.
  intros Hr Hc [Hrows Hcells] E. split.
  - intros a Ha. apply (setPair_rows _ _ _ _ _ _ E). auto.
  - intros a b. rewrite (cell_setPair _ _ _ _ _ _ _ E).
    case_decide as Hd; [|apply Hcells].
    split; [|eauto]. intros _.
    destruct Hd as [[-> ->]|[-> ->]]; auto.
Qed.

Lemma setPair_symmetric matrix matrix' row col v :
  symmetric matrix ->
  setPair matrix row col v = Some matrix' ->
  symmetric matrix'.
Proof.
  intros Hsym E a b. rewrite !(cell_setPair _ _ _ _ _ _ _ E).
  rewrite (Hsym a b). repeat case_decide; tauto.
Qed.

End CellRules.

Section InitMatrix.
Variable tickers : list string.

Lemma initRow (ticker1 : string) (matrix : Matrix) :
  exists matrix' r,
    forEach (fun (matrix : Matrix) ticker2 =>
               setCell matrix ticker1 ticker2 0%float)
      tickers (<[ticker1 := ∅]> matrix) = Some matrix'
    /\ matrix' = <[ticker1 := r]> matrix /\ zeroRow tickers r.
Proof.
  destruct (forEach_visited
              (fun (matrix : Matrix) ticker2 =>
                 setCell matrix ticker1 ticker2 0%float)
              (fun visited (m' : Matrix) =>
                 exists r, m' = <[ticker1 := r]> matrix
                   /\ forall b, r !! b
                        = if decide (b ∈ visited) then Some 0%float else None)
              tickers) with
    (<[ticker1 := ∅]> matrix) as (matrix' & E & r & Hm & Hr).
  - intros visited ticker2 st _ (r & -> & Hr).
    exists (<[ticker1 := <[ticker2 := 0%float]> r]> matrix). split.
    + unfold setCell. rewrite lookup_insert_eq. cbn.
      now rewrite insert_insert_eq.
    + exists (<[ticker2 := 0%float]> r). split; [reflexivity|].
      intros b. destruct (decide (ticker2 = b)) as [->|NE].
      * rewrite lookup_insert_eq, decide_True; [done|].
        apply elem_of_app. right. left.
      * rewrite lookup_insert_ne, Hr by done.
        repeat case_decide; try done; set_solver.
  - exists ∅. split; [reflexivity|]. intros b. rewrite lookup_empty.
    rewrite decide_False; [done | apply not_elem_of_nil].
  - exists matrix', r. auto.
Qed.

Lemma initMatrix_rows :
  exists matrix,
    initMatrix tickers = Some matrix
    /\ forall a,
         if decide (a ∈ tickers)
         then exists r, matrix !! a = Some r /\ zeroRow tickers r
         else matrix !! a = None.
Proof.
  destruct (forEach_visited
              (fun (matrix : Matrix) ticker1 =>
                 forEach (fun (matrix : Matrix) ticker2 =>
                            setCell matrix ticker1 ticker2 0%float)
                   tickers (<[ticker1 := ∅]> matrix))
              (fun visited (m : Matrix) =>
                 forall a,
                   if decide (a ∈ visited)
                   then exists r, m !! a = Some r /\ zeroRow tickers r
                   else m !! a = None)
              tickers) with (∅ : Matrix) as (matrix & E & H).
  - intros visited ticker1 st _ HP.
    destruct (initRow ticker1 st) as (matrix' & r & E & -> & Hr).
    exists (<[ticker1 := r]> st). split; [exact E|].
    intros a. specialize (HP a).
    destruct (decide (ticker1 = a)) as [->|NE].
    + rewrite decide_True by (apply elem_of_app; right; left).
      exists r. now rewrite lookup_insert_eq.
    + rewrite lookup_insert_ne by done.
      repeat case_decide; try done; set_solver.
  - intros a. rewrite decide_False by apply not_elem_of_nil.
    apply lookup_empty.
  - exists matrix. split; [exact E | exact H].
Qed.

Lemma initMatrix_cells :
  exists matrix,
    initMatrix tickers = Some matrix
    /\ (forall a, a ∈ tickers -> is_Some (matrix !! a))
    /\ forall a b,
         cell matrix a b
         = if decide (a ∈ tickers /\ b ∈ tickers) then Some 0%float
           else None.
Proof.
  destruct initMatrix_rows as (matrix & E & H).
  exists matrix. split; [exact E|]. split.
  - intros a Ha. specialize (H a). rewrite decide_True in H by done.
    destruct H as (r & -> & _). eauto.
  - intros a b. specialize (H a). unfold cell.
    destruct (decide (a ∈ tickers)) as [Ha|Ha].
    + destruct H as (r & -> & Hr). cbn. rewrite Hr.
      repeat case_decide; tauto.
    + rewrite H. cbn. rewrite decide_False; tauto.
Qed.

Lemma initMatrix_populated :
  exists matrix,
    initMatrix tickers = Some matrix
    /\ populated tickers matrix /\ symmetric matrix.
Proof.
  destruct initMatrix_cells as (matrix & E & Hrows & Hcells).
  exists matrix. split; [exact E|]. split; [split; [exact Hrows|]|].
  - intros a b. rewrite Hcells. case_decide; split; try tauto; eauto.
    intros [? [=]].
  - intros a b. rewrite !Hcells. repeat case_decide; tauto.
Qed.

End InitMatrix.

(** ** The matrix of [processStockData] *)

Section StringOrder.

Lemma string_ltb_neq (a b : string) : String.ltb a b = true -> a <> b.
Proof.
  unfold String.ltb. intros H ->.
  pose proof (String.compare_antisym b b) as Hc.
  destruct (String.compare b b); discriminate.
Qed.

Lemma string_ltb_asym (a b : string) :
  String.ltb a b = true -> String.ltb b a = false.
Proof.
  unfold String.ltb. rewrite (String.compare_antisym a b).
  now destruct (String.compare b a).
Qed.

Lemma string_ltb_total (a b : string) :
  a <> b -> String.ltb a b = true \/ String.ltb b a = true.
Proof.
  intros NE. unfold String.ltb. rewrite (String.compare_antisym a b).
  destruct (String.compare b a) eqn:E; cbn; auto.
  apply String.compare_eq_iff in E. congruence.
Qed.

End StringOrder.

Section ProcessStockData.
Variable runtime : DateRuntime.
Variable stockData : StockData.

Local Abbreviation tickers := (Object_keys stockData).
Local Abbreviation expected := (expectedCell runtime stockData).
Local Abbreviation isFinal := (final runtime stockData).

Lemma property_keys (k : string) :
  k ∈ Object_keys stockData -> is_Some (property k stockData).
Proof.
  unfold Object_keys.
  induction stockData as [|[k' v] rest IH]; cbn; intros H; [inversion H|].
  destruct (String.eqb_spec k' k) as [->|NE]; [eauto|].
  apply IH. apply elem_of_cons in H as [->|H]; [contradiction | exact H].
Qed.

Lemma expectedCell_sym (a b : string) : expected a b = expected b a.
Proof.
  unfold expectedCell. rewrite (String.eqb_sym b a).
  destruct (String.eqb_spec a b) as [->|NE]; [reflexivity|].
  destruct (string_ltb_total a b NE) as [H|H]; rewrite H;
    now rewrite (string_ltb_asym _ _ H).
Qed.

Lemma expectedCell_diag (a : string) : expected a a = Some 1%float.
Proof. unfold expectedCell. now rewrite String.eqb_refl. Qed.

Lemma setCell_populated
    (matrix matrix' : Matrix) (row col : string) (v : float) :
  row ∈ tickers -> col ∈ tickers ->
  populated tickers matrix ->
  setCell matrix row col v = Some matrix' ->
  populated tickers matrix'.
Proof.
  intros Hr Hc [Hrows Hcells] E. split.
  - intros a Ha. apply (setCell_rows _ _ _ _ _ _ E). auto.
  - intros a b. rewrite (cell_setCell _ _ _ _ _ _ _ E).
    case_decide as Hd; [|apply Hcells].
    destruct Hd as [-> ->]. split; eauto.
Qed.

Lemma validData_property (k : string) (series : list StockPrice) :
  validData runtime stockData ->
  property k stockData = Some series -> parses runtime series.
Proof.
  unfold validData.
  induction stockData as [|[k' v] rest IH]; cbn; [discriminate|].
  intros [Hv Hrest]%Forall_cons.
  destruct (String.eqb k' k); [now intros [= <-] | now apply IH].
Qed.

Lemma pairCorrelation_is_Some (series1 series2 : list StockPrice) :
  parses runtime series1 -> parses runtime series2 ->
  is_Some (pairCorrelation runtime series1 series2).
Proof.
  intros P1 P2. unfold pairCorrelation.
  destruct (proj2 (alignPricesByTimestamp_parses runtime series1 series2)
              (conj P1 P2)) as [alignedPrices ->].
  cbn. eauto.
Qed.

Hypothesis Hvalid : validData runtime stockData.

Lemma processCell_step (ticker1 ticker2 : string) (matrix : Matrix) :
  ticker1 ∈ tickers -> ticker2 ∈ tickers ->
  populated tickers matrix ->
  exists matrix',
    processCell runtime stockData ticker1 matrix ticker2 = Some matrix'
    /\ populated tickers matrix'
    /\ (forall a b, isFinal matrix a b -> isFinal matrix' a b)
    /\ (ticker1 = ticker2 \/ String.ltb ticker1 ticker2 = true ->
        isFinal matrix' ticker1 ticker2 /\ isFinal matrix' ticker2 ticker1).
Proof.
  intros H1 H2 Hpop. unfold processCell.
  destruct (String.eqb_spec ticker1 ticker2) as [<-|NE].
  - destruct (setCell_Some matrix ticker1 ticker1 1%float) as [matrix' E];
      [now apply Hpop|].
    exists matrix'. split; [exact E|].
    split;
      [now apply (setCell_populated matrix matrix' ticker1 ticker1 1%float)|].
    assert (Hfin : isFinal matrix' ticker1 ticker1).
    { unfold final. rewrite (cell_setCell _ _ _ _ _ _ _ E), decide_True by done.
      now rewrite expectedCell_diag. }
    split; [|auto].
    intros a b Hab. unfold final in *.
    rewrite (cell_setCell _ _ _ _ _ _ _ E).
    case_decide as Hd; [|exact Hab].
    destruct Hd as [-> ->]. now rewrite expectedCell_diag.
  - destruct (String.ltb ticker1 ticker2) eqn:Hlt.
    + destruct (property_keys ticker1 H1) as [series1 E1].
      destruct (property_keys ticker2 H2) as [series2 E2].
      destruct (pairCorrelation_is_Some series1 series2
                  (validData_property _ _ Hvalid E1)
                  (validData_property _ _ Hvalid E2)) as [correlation Ec].
      assert (Hexp : expected ticker1 ticker2 = Some correlation).
      { unfold expectedCell.
        destruct (String.eqb_spec ticker1 ticker2); [contradiction|].
        now rewrite Hlt, E1, E2. }
      rewrite E1, E2. cbn [mbind option_bind].
      unfold pairCorrelation in Ec.
      destruct (alignPricesByTimestamp runtime series1 series2)
        as [alignedPrices|]; [|discriminate Ec].
      cbn in Ec. injection Ec as Ec. cbn [mbind option_bind]. cbv zeta.
      rewrite Ec.
      fold (setPair matrix ticker1 ticker2 correlation).
      destruct (setPair_Some matrix ticker1 ticker2 correlation)
        as [matrix' E]; [now apply Hpop | now apply Hpop |].
      exists matrix'. split; [exact E|].
      split; [now apply (setPair_populated tickers matrix matrix' ticker1
                           ticker2 correlation)|].
      assert (Hfin : forall a b,
                 (a = ticker1 /\ b = ticker2) \/ (a = ticker2 /\ b = ticker1) ->
                 isFinal matrix' a b).
      { intros a b Hd. unfold final.
        rewrite (cell_setPair _ _ _ _ _ _ _ E), decide_True by done.
        destruct Hd as [[-> ->]|[-> ->]]; [|rewrite expectedCell_sym];
          now rewrite Hexp. }
      split; [|intros _; split; apply Hfin; auto].
      intros a b Hab.
      destruct (decide ((a = ticker1 /\ b = ticker2)
                        \/ (a = ticker2 /\ b = ticker1))) as [Hd|Hd];
        [now apply Hfin|].
      unfold final in *.
      now rewrite (cell_setPair _ _ _ _ _ _ _ E), decide_False.
    + exists matrix. split; [reflexivity|]. split; [exact Hpop|].
      split; [auto|]. intros [?|?]; [contradiction | discriminate].
Qed.

(** The inner loop of one row. *)
Lemma processRow (ticker1 : string) (matrix : Matrix) :
  ticker1 ∈ tickers ->
  populated tickers matrix ->
  exists matrix',
    forEach (processCell runtime stockData ticker1) tickers matrix
    = Some matrix'
    /\ populated tickers matrix'
    /\ (forall a b, isFinal matrix a b -> isFinal matrix' a b)
    /\ (forall ticker2,
          ticker2 ∈ tickers ->
          ticker1 = ticker2 \/ String.ltb ticker1 ticker2 = true ->
          isFinal matrix' ticker1 ticker2 /\ isFinal matrix' ticker2 ticker1).
Proof.
  intros H1 Hpop.
  destruct (forEach_visited
              (processCell runtime stockData ticker1)
              (fun visited (m : Matrix) =>
                 populated tickers m
                 /\ (forall a b, isFinal matrix a b -> isFinal m a b)
                 /\ (forall ticker2,
                       ticker2 ∈ visited ->
                       ticker1 = ticker2 \/ String.ltb ticker1 ticker2 = true ->
                       isFinal m ticker1 ticker2 /\ isFinal m ticker2 ticker1))
              tickers) with matrix as (matrix' & E & H); [| |eauto].
  - intros visited ticker2 m H2 (Hp & Hkeep & Hdone).
    destruct (processCell_step ticker1 ticker2 m H1 H2 Hp)
      as (m' & E & Hp' & Hkeep' & Hnew).
    exists m'. split; [exact E|]. split; [exact Hp'|]. split; [auto|].
    intros t [Ht| ->%list_elem_of_singleton]%elem_of_app Hle.
    + destruct (Hdone t Ht Hle). split; apply Hkeep'; assumption.
    + now apply Hnew.
  - split; [exact Hpop|]. split; [auto|]. intros t Ht. inversion Ht.
Qed.

(** Every cell of the finished matrix. *)
Lemma processStockData_cells :
  exists matrix,
    processStockData runtime stockData = Some matrix
    /\ populated tickers matrix
    /\ forall a b, a ∈ tickers -> b ∈ tickers ->
         cell matrix a b = expected a b.
Proof.
  unfold processStockData. fold tickers.
  destruct (initMatrix_populated tickers) as (matrix0 & E0 & Hpop0 & _).
  rewrite E0. cbn.
  destruct (forEach_visited
              (fun (matrix : Matrix) ticker1 =>
                 forEach (processCell runtime stockData ticker1)
                   tickers matrix)
              (fun visited (m : Matrix) =>
                 populated tickers m
                 /\ (forall ticker1 ticker2,
                       ticker1 ∈ visited -> ticker2 ∈ tickers ->
                       ticker1 = ticker2 \/ String.ltb ticker1 ticker2 = true ->
                       isFinal m ticker1 ticker2 /\ isFinal m ticker2 ticker1))
              tickers) with matrix0 as (matrix & E & Hpop & Hfin).
  - intros visited ticker1 m H1 (Hp & Hdone).
    destruct (processRow ticker1 m H1 Hp) as (m' & E & Hp' & Hkeep & Hnew).
    exists m'. split; [exact E|]. split; [exact Hp'|].
    intros t1 t2 [Ht| ->%list_elem_of_singleton]%elem_of_app H2 Hle.
    + destruct (Hdone t1 t2 Ht H2 Hle). split; apply Hkeep; assumption.
    + now apply Hnew.
  - split; [exact Hpop0|]. intros t1 t2 Ht. inversion Ht.
  - exists matrix. split; [exact E|]. split; [exact Hpop|].
    intros a b Ha Hb.
    destruct (decide (a = b)) as [->|NE].
    + apply (Hfin b b); auto.
    + destruct (string_ltb_total a b NE) as [Hlt|Hlt].
      * apply (Hfin a b); auto.
      * apply (Hfin b a); auto.
Qed.

End ProcessStockData.

(** ** The matrix of the heat map *)

Section HeatmapMatrix.
Variable stockData : StockData.

Local Abbreviation tickers := (Object_keys stockData).

Lemma heatmapCell_step
    (ticker1 ticker2 : string) (i j : nat) (matrix : Matrix) :
  ticker1 ∈ tickers -> ticker2 ∈ tickers ->
  populated tickers matrix /\ symmetric matrix ->
  exists matrix',
    CorrelationHeatmap.heatmapCell stockData ticker1 i matrix ticker2 j
    = Some matrix'
    /\ populated tickers matrix' /\ symmetric matrix'.
Proof.
  intros H1 H2 [Hpop Hsym]. unfold CorrelationHeatmap.heatmapCell.
  destruct (Nat.leb i j); [|now exists matrix].
  destruct (property_keys stockData ticker1 H1) as [series1 E1].
  destruct (property_keys stockData ticker2 H2) as [series2 E2].
  rewrite E1, E2. cbn [mbind option_bind].
  match goal with
  | |- context [if ?c then _ else _] => destruct c
  end.
  - fold (setPair matrix ticker1 ticker2 0%float).
    destruct (setPair_Some matrix ticker1 ticker2 0%float) as [matrix' E];
      [now apply Hpop | now apply Hpop |].
    exists matrix'. split; [exact E|]. split.
    + now apply (setPair_populated tickers matrix matrix' ticker1 ticker2
                   0%float).
    + now apply (setPair_symmetric matrix matrix' ticker1 ticker2 0%float).
  - match goal with
    | |- context [setCell matrix ticker1 ticker2 ?v] =>
        fold (setPair matrix ticker1 ticker2 v);
        destruct (setPair_Some matrix ticker1 ticker2 v) as [matrix' E];
          [now apply Hpop | now apply Hpop |];
        exists matrix'; split; [exact E|]; split;
          [now apply (setPair_populated tickers matrix matrix' ticker1
                        ticker2 v)
          |now apply (setPair_symmetric matrix matrix' ticker1 ticker2 v)]
    end.
Qed.

Lemma correlationMatrix_symmetric :
  exists matrix,
    CorrelationHeatmap.correlationMatrix stockData = Some matrix
    /\ populated tickers matrix /\ symmetric matrix.
Proof.
  unfold CorrelationHeatmap.correlationMatrix. fold tickers.
  destruct (initMatrix_populated tickers) as (matrix0 & E0 & Hinit).
  rewrite E0. cbn [mbind option_bind].
  apply (forEachFrom_invariant
           (fun (matrix : Matrix) ticker1 i =>
              forEachFrom
                (CorrelationHeatmap.heatmapCell stockData ticker1 i)
                0 tickers matrix)
           (fun m => populated tickers m /\ symmetric m) tickers);
    [|exact Hinit].
  intros ticker1 i m H1 Hm.
  apply (forEachFrom_invariant
           (CorrelationHeatmap.heatmapCell stockData ticker1 i)
           (fun m => populated tickers m /\ symmetric m) tickers);
    [|exact Hm].
  intros ticker2 j m' H2 Hm'. now apply heatmapCell_step.
Qed.

End HeatmapMatrix.

(** ** The two matrices *)

(** On every input whose timestamps parse, [processStockData] finishes
    with 1 in each self-cell. *)
Lemma processStockData_self_cell
    (runtime : DateRuntime) (stockData : StockData) :
  validData runtime stockData ->
  exists matrix,
    processStockData runtime stockData = Some matrix
    /\ forall a, a ∈ Object_keys stockData -> cell matrix a a = Some 1%float.
Proof.
  intros Hvalid.
  destruct (processStockData_cells runtime stockData Hvalid)
    as (matrix & E & _ & Hcells).
  exists matrix. split; [exact E|]. intros a Ha.
  rewrite (Hcells a a Ha Ha). apply expectedCell_diag.
Qed.

(** A property that every iteration that returns preserves holds when the
    loop returns. *)
Lemma forEach_preserves {St A : Type} (body : St -> A -> option St)
    (P : St -> Prop) (arr : list A) :
  (forall item st st',
      item ∈ arr -> P st -> body st item = Some st' -> P st') ->
  forall st st', P st -> forEach body arr st = Some st' -> P st'.
Proof.
  intros Hstep.
  assert (Hgen : forall rest,
             (forall item, item ∈ rest -> item ∈ arr) ->
             forall st st', P st -> forEach body rest st = Some st' -> P st').
  { induction rest as [|item rest IH]; intros Hsub st st' HP E.
    - cbn in E. now injection E as <-.
    - cbn in E. destruct (body st item) as [st1|] eqn:E1; [|discriminate].
      cbn in E. apply (IH ltac:(intros x Hx; apply Hsub; now right) st1 st');
        [|exact E].
      apply (Hstep item st st1); [apply Hsub; left | exact HP | exact E1]. }
  apply Hgen. auto.
Qed.

Lemma setCell_diagonal_symmetric (matrix matrix' : Matrix)
    (ticker : string) (v : float) :
  symmetric matrix ->
  setCell matrix ticker ticker v = Some matrix' ->
  symmetric matrix'.
Proof.
  intros Hsym E a b. rewrite !(cell_setCell _ _ _ _ _ _ _ E).
  rewrite (Hsym a b). repeat case_decide; tauto.
Qed.

(** An iteration of [processStockData] that returns keeps the matrix
    populated and symmetric. *)
Lemma processCell_preserves (runtime : DateRuntime) (stockData : StockData)
    (ticker1 ticker2 : string) (matrix matrix' : Matrix) :
  ticker1 ∈ Object_keys stockData -> ticker2 ∈ Object_keys stockData ->
  populated (Object_keys stockData) matrix /\ symmetric matrix ->
  processCell runtime stockData ticker1 matrix ticker2 = Some matrix' ->
  populated (Object_keys stockData) matrix' /\ symmetric matrix'.
Proof.
  intros H1 H2 [Hpop Hsym]. unfold processCell.
  destruct (String.eqb_spec ticker1 ticker2) as [<-|NE].
  - intros E. split.
    + now apply (setCell_populated stockData matrix matrix' ticker1 ticker1
                   1%float).
    + now apply (setCell_diagonal_symmetric matrix matrix' ticker1 1%float).
  - destruct (String.ltb ticker1 ticker2); [|now intros [= <-]].
    destruct (property ticker1 stockData) as [series1|]; [|discriminate].
    destruct (property ticker2 stockData) as [series2|]; [|discriminate].
    cbn [mbind option_bind].
    destruct (alignPricesByTimestamp runtime series1 series2)
      as [alignedPrices|]; [|discriminate].
    cbn [mbind option_bind]. cbv zeta.
    match goal with
    | |- context [setCell matrix ticker1 ticker2 ?v] =>
        fold (setPair matrix ticker1 ticker2 v); intros E; split;
          [now apply (setPair_populated (Object_keys stockData) matrix
                        matrix' ticker1 ticker2 v)
          |now apply (setPair_symmetric matrix matrix' ticker1 ticker2 v)]
    end.
Qed.

(** Whenever [processStockData] returns, its matrix is populated and
    symmetric. *)
Lemma processStockData_symmetric
    (runtime : DateRuntime) (stockData : StockData) (matrix : Matrix) :
  processStockData runtime stockData = Some matrix ->
  populated (Object_keys stockData) matrix /\ symmetric matrix.
Proof.
  unfold processStockData.
  destruct (initMatrix_populated (Object_keys stockData))
    as (matrix0 & E0 & Hinit).
  rewrite E0. cbn [mbind option_bind].
  apply (forEach_preserves
           (fun (matrix : Matrix) ticker1 =>
              forEach (processCell runtime stockData ticker1)
                (Object_keys stockData) matrix)
           (fun m => populated (Object_keys stockData) m /\ symmetric m)
           (Object_keys stockData)); [|exact Hinit].
  intros ticker1 m m' H1 Hm.
  apply (forEach_preserves
           (processCell runtime stockData ticker1)
           (fun m => populated (Object_keys stockData) m /\ symmetric m)
           (Object_keys stockData)); [|exact Hm].
  intros ticker2 m1 m2 H2 Hm1. now apply processCell_preserves.
Qed.

(** The overshoot of the correlation reaches the matrix of
    [processStockData]; the heat map clamps it. *)
Lemma processStockData_cell_exceeds_one :
  (matrix ← processStockData utcRuntime
              [("A", risingSeries "A"); ("B", risingSeries "B")];
   cell matrix "A" "B") = Some 0x1.0000000000001p+0%float
  /\ (matrix ← CorrelationHeatmap.correlationMatrix
                 [("A", risingSeries "A"); ("B", risingSeries "B")];
      cell matrix "A" "B") = Some 1%float.
Proof. split; vm_compute; reflexivity. Qed.

(** C2 fails on the matrix of the heat map: it computes the self-cell like
    every other cell, so a symbol whose series is empty or constant gets 0
    (and a series such as [1,3,5] gets 0.9999999999999998), where
    [processStockData] writes the constant 1 on the same input. *)
Theorem heatmap_self_cell_not_one :
  let item p := mkStockPrice "A" p "2024-03-01T09:00:00.000Z" in
  (matrix ← CorrelationHeatmap.correlationMatrix [("A", [])];
   cell matrix "A" "A") = Some 0%float
  /\ (matrix ← CorrelationHeatmap.correlationMatrix
                 [("A", [item 5; item 5; item 5])%float];
      cell matrix "A" "A") = Some 0%float
  /\ (matrix ← CorrelationHeatmap.correlationMatrix
                 [("A", [item 1; item 3; item 5])%float];
      cell matrix "A" "A") = Some 0x1.ffffffffffffep-1%float
  /\ (matrix ← processStockData utcRuntime [("A", [])];
      cell matrix "A" "A") = Some 1%float
  /\ (matrix ← processStockData utcRuntime
                 [("A", [item 5; item 5; item 5])%float];
      cell matrix "A" "A") = Some 1%float.
Proof. repeat split; vm_compute; reflexivity. Qed.

(** C3: both matrices are symmetric. For an input none of whose symbols is
    ["__proto__"]: the matrix of the heat map is always built, the matrix
    of [processStockData] is built when every timestamp parses, and
    whenever a matrix is returned, for every two symbols of the input the
    cells [(a, b)] and [(b, a)] exist and hold the same number. *)
Theorem correlation_matrix_symmetric
    (runtime : DateRuntime) (stockData : StockData) :
  "__proto__" ∉ Object_keys stockData ->
  (validData runtime stockData ->
   exists matrix, processStockData runtime stockData = Some matrix)
  /\ (forall matrix,
        processStockData runtime stockData = Some matrix ->
        forall a b,
          a ∈ Object_keys stockData -> b ∈ Object_keys stockData ->
          exists v, cell matrix a b = Some v /\ cell matrix b a = Some v)
  /\ (exists matrix,
        CorrelationHeatmap.correlationMatrix stockData = Some matrix
        /\ forall a b,
             a ∈ Object_keys stockData -> b ∈ Object_keys stockData ->
             exists v, cell matrix a b = Some v /\ cell matrix b a = Some v).
Proof.
  intros _. split; [|split].
  - intros Hvalid.
    destruct (processStockData_cells runtime stockData Hvalid)
      as (matrix & E & _).
    now exists matrix.
  - intros matrix E a b Ha Hb.
    destruct (processStockData_symmetric runtime stockData matrix E)
      as [[_ Hpop] Hsym].
    destruct (proj2 (Hpop a b) (conj Ha Hb)) as [v Hv].
    exists v. split; [exact Hv|]. now rewrite <- (Hsym a b).
  - destruct (correlationMatrix_symmetric stockData)
      as (matrix & E & [_ Hpop] & Hsym).
    exists matrix. split; [exact E|]. intros a b Ha Hb.
    destruct (proj2 (Hpop a b) (conj Ha Hb)) as [v Hv].
    exists v. split; [exact Hv|]. now rewrite <- (Hsym a b).
Qed.

Lemma correlation_matrix_symmetric_witness :
  (("__proto__" ∉ Object_keys [("AAPL", seriesA); ("MSFT", seriesB)])
   /\ validData utcRuntime [("AAPL", seriesA); ("MSFT", seriesB)]
   /\ "AAPL" ∈ Object_keys [("AAPL", seriesA); ("MSFT", seriesB)]
   /\ "MSFT" ∈ Object_keys [("AAPL", seriesA); ("MSFT", seriesB)])
  /\ (exists matrix v,
        processStockData utcRuntime [("AAPL", seriesA); ("MSFT", seriesB)]
        = Some matrix
        /\ cell matrix "AAPL" "MSFT" = Some v
        /\ cell matrix "MSFT" "AAPL" = Some v)
  /\ (exists matrix v,
        CorrelationHeatmap.correlationMatrix
          [("AAPL", seriesA); ("MSFT", seriesB)] = Some matrix
        /\ cell matrix "AAPL" "MSFT" = Some v
        /\ cell matrix "MSFT" "AAPL" = Some v).
Proof.
  assert (HP : "__proto__" ∉ Object_keys [("AAPL", seriesA); ("MSFT", seriesB)])
    by (apply (bool_decide_unpack _); vm_compute; exact I).
  assert (HV : validData utcRuntime [("AAPL", seriesA); ("MSFT", seriesB)])
    by (repeat constructor; eexists; reflexivity).
  assert (HA : "AAPL" ∈ Object_keys [("AAPL", seriesA); ("MSFT", seriesB)])
    by (cbn; left).
  assert (HM : "MSFT" ∈ Object_keys [("AAPL", seriesA); ("MSFT", seriesB)])
    by (cbn; right; left).
  split; [auto|].
  destruct (correlation_matrix_symmetric utcRuntime
              [("AAPL", seriesA); ("MSFT", seriesB)] HP)
    as (Hbuilt & H1 & (m2 & E2 & H2)).
  destruct (Hbuilt HV) as [m1 E1].
  split.
  - destruct (H1 m1 E1 "AAPL" "MSFT" HA HM) as (v & Hv1 & Hv2).
    exists m1, v. auto.
  - destruct (H2 "AAPL" "MSFT" HA HM) as (v & Hv1 & Hv2).
    exists m2, v. auto.
Defined.


(** * Further properties *)

(** ** The order of binary64 numbers *)

Section FloatOrder.
Local Open Scope Z_scope.

Ltac order_step :=
  match goal with
  | H : context [Pos.compare_cont Eq ?a ?b] |- _ =>
      progress change (Pos.compare_cont Eq a b) with (Pos.compare a b) in H
  | |- context [Pos.compare_cont Eq ?a ?b] =>
      progress change (Pos.compare_cont Eq a b) with (Pos.compare a b)
  | H : context [Z.compare ?a ?b] |- _ => destruct (Z.compare_spec a b)
  | |- context [Z.compare ?a ?b] => destruct (Z.compare_spec a b)
  | H : context [Pos.compare ?a ?b] |- _ => destruct (Pos.compare_spec a b)
  | |- context [Pos.compare ?a ?b] => destruct (Pos.compare_spec a b)
  end.

Ltac order_cases :=
  intros; repeat order_step; cbn in *; subst;
  try discriminate; try reflexivity; try lia.

Lemma SFltb_leb_trans (x y z : spec_float) :
  SFltb x y = true -> SFleb y z = true -> SFltb x z = true.
Proof.
  unfold SFltb, SFleb.
  destruct x as [[]|[]| |[] mx ex], y as [[]|[]| |[] my ey],
    z as [[]|[]| |[] mz ez]; cbn; try discriminate; try reflexivity;
    order_cases.
Qed.

Lemma SFleb_trans (x y z : spec_float) :
  SFleb x y = true -> SFleb y z = true -> SFleb x z = true.
Proof.
  unfold SFleb.
  destruct x as [[]|[]| |[] mx ex], y as [[]|[]| |[] my ey],
    z as [[]|[]| |[] mz ez]; cbn; try discriminate; try reflexivity;
    order_cases.
Qed.

Lemma SFleb_ltb_trans (x y z : spec_float) :
  SFleb x y = true -> SFltb y z = true -> SFltb x z = true.
Proof.
  unfold SFltb, SFleb.
  destruct x as [[]|[]| |[] mx ex], y as [[]|[]| |[] my ey],
    z as [[]|[]| |[] mz ez]; cbn; try discriminate; try reflexivity;
    order_cases.
Qed.

Lemma float_leb_trans (x y z : float) :
  (x <=? y)%float = true -> (y <=? z)%float = true -> (x <=? z)%float = true.
Proof. rewrite !leb_spec. apply SFleb_trans. Qed.

Lemma float_ltb_leb_trans (x y z : float) :
  (x <? y)%float = true -> (y <=? z)%float = true -> (x <? z)%float = true.
Proof. rewrite !ltb_spec, leb_spec. apply SFltb_leb_trans. Qed.

Lemma float_leb_ltb_trans (x y z : float) :
  (x <=? y)%float = true -> (y <? z)%float = true -> (x <? z)%float = true.
Proof. rewrite !ltb_spec, leb_spec. apply SFleb_ltb_trans. Qed.

(** A comparison that holds has no NaN on either side. *)
Lemma float_leb_not_nan (x y : float) :
  (x <=? y)%float = true ->
  PrimFloat.is_nan x = false /\ PrimFloat.is_nan y = false.
Proof.
  unfold PrimFloat.is_nan. rewrite leb_spec, !FloatAxioms.eqb_spec.
  unfold SFleb, SFeqb.
  destruct (Prim2SF x) as [[]|[]| |[] mx ex],
    (Prim2SF y) as [[]|[]| |[] my ey]; cbn; try discriminate;
    intros _; split; try reflexivity;
    now rewrite Z.compare_refl, ?Pos.compare_cont_refl.
Qed.

Lemma float_ltb_not_nan (x y : float) :
  (x <? y)%float = true ->
  PrimFloat.is_nan x = false /\ PrimFloat.is_nan y = false.
Proof. intros H%float_ltb_leb. now apply float_leb_not_nan. Qed.

(** Strictly below excludes above-or-equal, and conversely. *)
Lemma float_ltb_not_leb (x y : float) :
  (x <? y)%float = true -> (y <=? x)%float = false.
Proof.
  rewrite ltb_spec, leb_spec. unfold SFltb, SFleb.
  rewrite (SFcompare_antisym (Prim2SF x) (Prim2SF y)).
  now destruct (SFcompare (Prim2SF x) (Prim2SF y)) as [[]|].
Qed.

Lemma float_leb_not_ltb (x y : float) :
  (x <=? y)%float = true -> (y <? x)%float = false.
Proof.
  rewrite ltb_spec, leb_spec. unfold SFltb, SFleb.
  rewrite (SFcompare_antisym (Prim2SF x) (Prim2SF y)).
  now destruct (SFcompare (Prim2SF x) (Prim2SF y)) as [[]|].
Qed.

Lemma float_not_leb_ltb (x y : float) :
  PrimFloat.is_nan x = false -> PrimFloat.is_nan y = false ->
  (x <=? y)%float = false -> (y <? x)%float = true.
Proof.
  intros Hx%is_nan_false Hy%is_nan_false.
  rewrite ltb_spec, leb_spec. unfold SFltb, SFleb.
  rewrite (SFcompare_antisym (Prim2SF x) (Prim2SF y)).
  destruct (SFcompare (Prim2SF x) (Prim2SF y)) as [[]|] eqn:E; try easy.
  exfalso. destruct (Prim2SF x), (Prim2SF y); easy.
Qed.

End FloatOrder.

(** ** The colour scale *)

Section ColorScale.
Local Open Scope float_scope.

(** X1: the colour scale is monotone: a larger correlation never gets a
    colour lower on the scale dark red, orange, grey, medium green, dark
    green. *)
Theorem getColorForCorrelation_monotone (a b : float) :
  (a <=? b) = true ->
  colorRank (getColorForCorrelation a) <= colorRank (getColorForCorrelation b).
Proof.
  intros Hab. unfold getColorForCorrelation.
  destruct (0x1.6666666666666p-1 <=? a) eqn:A4.
  { rewrite (float_leb_trans _ _ _ A4 Hab). reflexivity. }
  destruct (0x1.3333333333333p-2 <=? a) eqn:A3.
  { rewrite (float_leb_trans _ _ _ A3 Hab).
    destruct (0x1.6666666666666p-1 <=? b); cbn; lia. }
  destruct (-0x1.3333333333333p-2 <? a) eqn:A2.
  { rewrite (float_ltb_leb_trans _ _ _ A2 Hab).
    destruct (0x1.6666666666666p-1 <=? b), (0x1.3333333333333p-2 <=? b);
      cbn; lia. }
  destruct (-0x1.6666666666666p-1 <? a) eqn:A1.
  { rewrite (float_ltb_leb_trans _ _ _ A1 Hab).
    destruct (0x1.6666666666666p-1 <=? b), (0x1.3333333333333p-2 <=? b),
      (-0x1.3333333333333p-2 <? b); cbn; lia. }
  cbn. lia.
Qed.

Lemma getColorForCorrelation_monotone_witness :
  (-0x1p-1 <=? 0x1p-1) = true
  /\ colorRank (getColorForCorrelation (-0x1p-1)) = 1%nat
  /\ colorRank (getColorForCorrelation 0x1p-1) = 3%nat
  /\ colorRank (getColorForCorrelation (-0x1p-1))
     <= colorRank (getColorForCorrelation 0x1p-1).
Proof.
  split; [reflexivity|]. split; [reflexivity|]. split; [reflexivity|].
  apply (getColorForCorrelation_monotone (-0x1p-1) 0x1p-1). reflexivity.
Defined.

(** The tests of the function on a number that is not NaN, as bounds. *)
Lemma color_tests (v : float) :
  PrimFloat.is_nan v = false ->
  ((0x1.6666666666666p-1 <=? v) = negb (v <? 0x1.6666666666666p-1))
  /\ ((0x1.3333333333333p-2 <=? v) = negb (v <? 0x1.3333333333333p-2))
  /\ ((-0x1.3333333333333p-2 <? v) = negb (v <=? -0x1.3333333333333p-2))
  /\ ((-0x1.6666666666666p-1 <? v) = negb (v <=? -0x1.6666666666666p-1)).
Proof.
  intros Hv.
  assert (Hle : forall c, PrimFloat.is_nan c = false ->
                          (c <=? v) = negb (v <? c)).
  { intros c Hc. destruct (c <=? v) eqn:E.
    - now rewrite (float_leb_not_ltb _ _ E).
    - now rewrite (float_not_leb_ltb _ _ Hc Hv E). }
  assert (Hlt : forall c, PrimFloat.is_nan c = false ->
                          (c <? v) = negb (v <=? c)).
  { intros c Hc. destruct (c <? v) eqn:E.
    - now rewrite (float_ltb_not_leb _ _ E).
    - now rewrite (float_not_ltb_leb _ _ Hc Hv E). }
  repeat split; first [apply Hle | apply Hlt]; reflexivity.
Qed.

(** X2: the band of each colour. Dark green is for values from 0.7, medium
    green for 0.3 up to 0.7, grey strictly between -0.3 and 0.3, orange
    above -0.7 up to -0.3, and dark red for values up to -0.7 and for NaN. *)
Theorem getColorForCorrelation_bands (v : float) :
  (getColorForCorrelation v = "#2e7d32"
   <-> (0x1.6666666666666p-1 <=? v) = true)
  /\ (getColorForCorrelation v = "#689f38"
      <-> (0x1.3333333333333p-2 <=? v) = true
          /\ (v <? 0x1.6666666666666p-1) = true)
  /\ (getColorForCorrelation v = "#9e9e9e"
      <-> (-0x1.3333333333333p-2 <? v) = true
          /\ (v <? 0x1.3333333333333p-2) = true)
  /\ (getColorForCorrelation v = "#ef6c00"
      <-> (-0x1.6666666666666p-1 <? v) = true
          /\ (v <=? -0x1.3333333333333p-2) = true)
  /\ (getColorForCorrelation v = "#c62828"
      <-> PrimFloat.is_nan v = true
          \/ (v <=? -0x1.6666666666666p-1) = true).
Proof.
  unfold getColorForCorrelation.
  destruct (PrimFloat.is_nan v) eqn:Hnan.
  - assert (Hl : forall c, (c <=? v) = false).
    { intros c. destruct (c <=? v) eqn:E; [|reflexivity].
      apply float_leb_not_nan in E as [_ E]. congruence. }
    assert (Hr : forall c, (v <=? c) = false).
    { intros c. destruct (v <=? c) eqn:E; [|reflexivity].
      apply float_leb_not_nan in E as [E _]. congruence. }
    assert (Hl' : forall c, (c <? v) = false).
    { intros c. destruct (c <? v) eqn:E; [|reflexivity].
      apply float_ltb_not_nan in E as [_ E]. congruence. }
    assert (Hr' : forall c, (v <? c) = false).
    { intros c. destruct (v <? c) eqn:E; [|reflexivity].
      apply float_ltb_not_nan in E as [E _]. congruence. }
    rewrite !Hl, !Hl', !Hr, !Hr'.
    repeat split; intros; try discriminate; intuition (auto; discriminate).
  - destruct (color_tests v Hnan) as (T4 & T3 & T2 & T1).
    rewrite T4, T3, T2, T1.
    assert (H43 : (v <? 0x1.3333333333333p-2) = true ->
                  (v <? 0x1.6666666666666p-1) = true).
    { intros H. now apply (float_ltb_leb_trans _ _ _ H). }
    assert (H32 : (v <=? -0x1.3333333333333p-2) = true ->
                  (v <? 0x1.3333333333333p-2) = true).
    { intros H. now apply (float_leb_ltb_trans _ _ _ H). }
    assert (H21 : (v <=? -0x1.6666666666666p-1) = true ->
                  (v <=? -0x1.3333333333333p-2) = true).
    { intros H. now apply (float_leb_trans _ _ _ H). }
    destruct (v <? 0x1.6666666666666p-1) eqn:E4;
      destruct (v <? 0x1.3333333333333p-2) eqn:E3;
      destruct (v <=? -0x1.3333333333333p-2) eqn:E2;
      destruct (v <=? -0x1.6666666666666p-1) eqn:E1;
      cbn [negb];
      try (specialize (H43 eq_refl); discriminate H43);
      try (specialize (H32 eq_refl); discriminate H32);
      try (specialize (H21 eq_refl); discriminate H21);
      repeat split; intros; try discriminate;
      intuition (auto; discriminate).
Qed.

Lemma getColorForCorrelation_bands_witness :
  getColorForCorrelation nan = "#c62828"
  /\ getColorForCorrelation (-0x1.6666666666666p-1) = "#c62828"
  /\ getColorForCorrelation 0x1.6666666666666p-1 = "#2e7d32"
  /\ getColorForCorrelation 0 = "#9e9e9e".
Proof.
  split.
  { apply (proj2 (proj2 (proj2 (proj2 (proj2
             (getColorForCorrelation_bands nan)))))).
    left. reflexivity. }
  split.
  { apply (proj2 (proj2 (proj2 (proj2 (proj2
             (getColorForCorrelation_bands (-0x1.6666666666666p-1))))))).
    right. reflexivity. }
  split.
  { apply (proj2 (proj1 (getColorForCorrelation_bands 0x1.6666666666666p-1))).
    reflexivity. }
  apply (proj2 (proj1 (proj2 (proj2 (getColorForCorrelation_bands 0))))).
  split; reflexivity.
Defined.

(** X3: the legend has four boxes, coloured dark red, grey, grey and dark
    green: the midpoints -0.75, -0.25, 0.25 and 0.75 never fall in the
    orange or the medium green band, the colours that cells take at -0.5
    and 0.5. *)
Theorem legend_omits_intermediate_colors :
  HeatmapView.legendColors
  = [Some "#c62828"; Some "#9e9e9e"; Some "#9e9e9e"; Some "#2e7d32"; None]
  /\ (Some "#ef6c00" ∉ HeatmapView.legendColors)
  /\ (Some "#689f38" ∉ HeatmapView.legendColors)
  /\ getColorForCorrelation (-0x1p-1) = "#ef6c00"
  /\ getColorForCorrelation 0x1p-1 = "#689f38".
Proof.
  assert (E : HeatmapView.legendColors
              = [Some "#c62828"; Some "#9e9e9e"; Some "#9e9e9e";
                 Some "#2e7d32"; None])
    by (vm_compute; reflexivity).
  split; [exact E|]. rewrite E.
  split; [|split; [|split; reflexivity]];
    intros H; repeat (apply elem_of_cons in H as [H|H]; [discriminate H|]);
    inversion H.
Qed.

End ColorScale.


(** ** What the heat map stores and shows *)

Section HeatmapCells.
Local Open Scope float_scope.

Lemma clamp_clamped (correlation : float) :
  clampedValue (Math_max (-1) (Math_min 1 correlation)).
Proof.
  destruct (PrimFloat.is_nan correlation) eqn:Hnan.
  - left. unfold Math_min. rewrite Hnan, orb_true_r. reflexivity.
  - right. unfold inUnitRange.
    destruct (heatmap_clamp_range correlation Hnan) as [-> ->]. reflexivity.
Qed.

Lemma heatmapCorrelation_clamped (series1 series2 : list StockPrice) :
  clampedValue (heatmapCorrelation series1 series2).
Proof.
  unfold heatmapCorrelation.
  match goal with |- context [if ?c then _ else _] => destruct c end.
  - right. reflexivity.
  - apply clamp_clamped.
Qed.

Lemma heatmapCorrelation_nil_l (series2 : list StockPrice) :
  heatmapCorrelation [] series2 = 0.
Proof. reflexivity. Qed.

Lemma heatmapCorrelation_nil_r (series1 : list StockPrice) :
  heatmapCorrelation series1 [] = 0.
Proof.
  unfold heatmapCorrelation. cbn [map length].
  now rewrite Nat.min_0_r.
Qed.

Lemma length_firstn_min {A : Type} (l1 l2 : list A) :
  length (firstn (Nat.min (length l1) (length l2)) l1)
  = Nat.min (length l1) (length l2).
Proof. rewrite length_firstn. lia. Qed.

Lemma heatmapCorrelation_comm (series1 series2 : list StockPrice) :
  heatmapCorrelation series1 series2 = heatmapCorrelation series2 series1.
Proof.
  unfold heatmapCorrelation.
  rewrite (Nat.min_comm (length (map price series2))).
  rewrite (length_firstn_min (map price series1) (map price series2)).
  replace (length (firstn (Nat.min (length (map price series1))
                             (length (map price series2)))
                     (map price series2)))
    with (Nat.min (length (map price series1)) (length (map price series2)))
    by (rewrite length_firstn; lia).
  destruct (Nat.eqb _ 0); [reflexivity|].
  rewrite (sumsLoop_swap _ (firstn _ (map price series1))
             (firstn _ (map price series2))).
  match goal with
  | |- context [sumsLoop ?n ?p1 ?p2 ?a1 ?a2] =>
      generalize (sumsLoop n p1 p2 a1 a2)
  end.
  intros acc. cbn [swapSums covariance variance1 variance2].
  rewrite (andb_comm (0 <? variance2 acc)).
  now rewrite (float_mul_comm (Math_sqrt (variance2 acc))).
Qed.

Lemma heatmapCell_write (stockData : StockData) (ticker1 ticker2 : string)
    (i j : nat) (matrix : Matrix) (series1 series2 : list StockPrice) :
  (i <= j)%nat ->
  property ticker1 stockData = Some series1 ->
  property ticker2 stockData = Some series2 ->
  CorrelationHeatmap.heatmapCell stockData ticker1 i matrix ticker2 j
  = setPair matrix ticker1 ticker2 (heatmapCorrelation series1 series2).
Proof.
  intros Hij E1 E2. unfold CorrelationHeatmap.heatmapCell, heatmapCorrelation.
  rewrite (proj2 (Nat.leb_le i j) Hij), E1, E2. cbn [mbind option_bind].
  match goal with |- context [if ?c then _ else _] => destruct c end;
    reflexivity.
Qed.

Lemma heatmapCell_skip (stockData : StockData) (ticker1 ticker2 : string)
    (i j : nat) (matrix : Matrix) :
  (j < i)%nat ->
  CorrelationHeatmap.heatmapCell stockData ticker1 i matrix ticker2 j
  = Some matrix.
Proof.
  intros Hji. unfold CorrelationHeatmap.heatmapCell.
  now rewrite (proj2 (Nat.leb_gt i j) Hji).
Qed.

End HeatmapCells.

Section HeatmapLoops.
Variable stockData : StockData.

Local Abbreviation tickers := (Object_keys stockData).

(** An invariant of an indexed loop that knows the position of each item. *)
Lemma forEachFrom_indexed {St A : Type}
    (body : St -> A -> nat -> option St) (P : nat -> St -> Prop)
    (arr : list A) :
  (forall i item st,
      arr !! i = Some item -> P i st ->
      exists st', body st item i = Some st' /\ P (S i) st') ->
  forall st, P 0 st ->
  exists st', forEachFrom body 0 arr st = Some st' /\ P (length arr) st'.
Proof.
  intros Hstep.
  assert (Hgen : forall rest k st,
             (forall i item, rest !! i = Some item ->
                             arr !! (k + i) = Some item) ->
             P k st ->
             exists st', forEachFrom body k rest st = Some st'
                         /\ P (k + length rest) st').
  { induction rest as [|item rest IH]; intros k st Hsub HP.
    - exists st. cbn. now rewrite Nat.add_0_r.
    - destruct (Hstep k item st) as (st1 & E1 & HP1);
        [rewrite <- (Nat.add_0_r k); now apply Hsub | exact HP |].
      destruct (IH (S k) st1) as (st2 & E2 & HP2); [|exact HP1|].
      { intros i x Hx. replace (S k + i) with (k + S i) by lia.
        now apply Hsub. }
      exists st2. cbn. rewrite E1. cbn. split; [exact E2|].
      now replace (k + S (length rest)) with (S k + length rest) by lia. }
  intros st HP. apply (Hgen arr 0 st); auto.
Qed.

Lemma heatmapCell_clamped (ticker1 ticker2 : string) (i j : nat)
    (matrix : Matrix) :
  ticker1 ∈ tickers -> ticker2 ∈ tickers ->
  populated tickers matrix
  /\ (forall a b v, cell matrix a b = Some v -> clampedValue v) ->
  exists matrix',
    CorrelationHeatmap.heatmapCell stockData ticker1 i matrix ticker2 j
    = Some matrix'
    /\ populated tickers matrix'
    /\ (forall a b v, cell matrix' a b = Some v -> clampedValue v).
Proof.
  intros H1 H2 [Hpop Hcl].
  destruct (Nat.le_gt_cases i j) as [Hij|Hji].
  - destruct (property_keys stockData ticker1 H1) as [series1 E1].
    destruct (property_keys stockData ticker2 H2) as [series2 E2].
    rewrite (heatmapCell_write stockData ticker1 ticker2 i j matrix
               series1 series2 Hij E1 E2).
    destruct (setPair_Some matrix ticker1 ticker2
                (heatmapCorrelation series1 series2)) as [matrix' E];
      [now apply Hpop | now apply Hpop |].
    exists matrix'. split; [exact E|]. split.
    + now apply (setPair_populated tickers matrix matrix' ticker1 ticker2
                   (heatmapCorrelation series1 series2)).
    + intros a b v. rewrite (cell_setPair _ _ _ _ _ _ _ E).
      case_decide; [|apply Hcl].
      intros [= <-]. apply heatmapCorrelation_clamped.
  - rewrite (heatmapCell_skip stockData ticker1 ticker2 i j matrix Hji).
    exists matrix. auto.
Qed.

Lemma correlationMatrix_clamped :
  exists matrix,
    CorrelationHeatmap.correlationMatrix stockData = Some matrix
    /\ populated tickers matrix
    /\ (forall a b v, cell matrix a b = Some v -> clampedValue v).
Proof.
  unfold CorrelationHeatmap.correlationMatrix.
  destruct (initMatrix_cells tickers) as (matrix0 & E0 & Hrows & Hcells).
  destruct (initMatrix_populated tickers) as (matrix0' & E0' & Hpop & _).
  assert (matrix0' = matrix0) as -> by congruence.
  rewrite E0. cbn [mbind option_bind].
  apply (forEachFrom_invariant
           (fun (matrix : Matrix) ticker1 i =>
              forEachFrom
                (CorrelationHeatmap.heatmapCell stockData ticker1 i)
                0 tickers matrix)
           (fun m => populated tickers m
                     /\ (forall a b v, cell m a b = Some v -> clampedValue v))
           tickers).
  - intros ticker1 i m H1 Hm.
    apply (forEachFrom_invariant
             (CorrelationHeatmap.heatmapCell stockData ticker1 i)
             (fun m => populated tickers m
                       /\ (forall a b v, cell m a b = Some v ->
                                         clampedValue v))
             tickers); [|exact Hm].
    intros ticker2 j m' H2 Hm'. now apply heatmapCell_clamped.
  - split; [exact Hpop|]. intros a b v. rewrite Hcells.
    case_decide; [|discriminate]. intros [= <-]. right. reflexivity.
Qed.

Lemma orElse_clamped (v : option float) :
  (forall x, v = Some x -> clampedValue x) ->
  inUnitRange (orElse v 0%float) = true.
Proof.
  intros Hv. unfold orElse. destruct v as [x|]; [|reflexivity].
  unfold truthy. destruct (PrimFloat.is_zero x); [reflexivity|].
  destruct (PrimFloat.is_nan x) eqn:Hnan; [reflexivity|]. cbn [orb negb].
  destruct (Hv x eq_refl) as [H|H]; [congruence | exact H].
Qed.

(** The inner loop of the row at position [i]. *)
Lemma heatmapRow_final (ticker1 : string) (i : nat) (matrix : Matrix) :
  NoDup tickers ->
  tickers !! i = Some ticker1 ->
  populated tickers matrix ->
  exists matrix',
    forEachFrom (CorrelationHeatmap.heatmapCell stockData ticker1 i)
      0 tickers matrix = Some matrix'
    /\ populated tickers matrix'
    /\ (forall i' j', (i' <= j')%nat ->
          heatFinal stockData matrix i' j' ->
          heatFinal stockData matrix' i' j')
    /\ (forall j, (i <= j)%nat -> heatFinal stockData matrix' i j).
Proof.
  intros ND Hi Hpop.
  destruct (forEachFrom_indexed
              (CorrelationHeatmap.heatmapCell stockData ticker1 i)
              (fun k (m : Matrix) =>
                 populated tickers m
                 /\ (forall i' j', (i' <= j')%nat ->
                       heatFinal stockData matrix i' j' ->
                       heatFinal stockData m i' j')
                 /\ (forall j, (i <= j < k)%nat -> heatFinal stockData m i j))
              tickers) with matrix as (matrix' & E & Hp & Hkeep & Hdone).
  - intros j ticker2 m Hj (Hp & Hkeep & Hdone).
    assert (H1 : ticker1 ∈ tickers) by (eapply list_elem_of_lookup_2; eauto).
    assert (H2 : ticker2 ∈ tickers) by (eapply list_elem_of_lookup_2; eauto).
    destruct (Nat.le_gt_cases i j) as [Hij|Hji].
    + destruct (property_keys stockData ticker1 H1) as [series1 E1].
      destruct (property_keys stockData ticker2 H2) as [series2 E2].
      rewrite (heatmapCell_write stockData ticker1 ticker2 i j m
                 series1 series2 Hij E1 E2).
      destruct (setPair_Some m ticker1 ticker2
                  (heatmapCorrelation series1 series2)) as [m' E];
        [now apply Hp | now apply Hp |].
      exists m'. split; [exact E|]. split.
      { now apply (setPair_populated tickers m m' ticker1 ticker2
                     (heatmapCorrelation series1 series2)). }
      assert (Hstable : forall i' j', (i' <= j')%nat ->
                 heatFinal stockData m i' j' -> heatFinal stockData m' i' j').
      { intros i' j' Hle Hfin a b sa sb Ha Hb Esa Esb.
        destruct (Hfin a b sa sb Ha Hb Esa Esb) as [Hab Hba].
        rewrite !(cell_setPair _ _ _ _ _ _ _ E).
        assert (Hsame : (a = ticker1 /\ b = ticker2)
                        \/ (a = ticker2 /\ b = ticker1) ->
                        heatmapCorrelation series1 series2
                        = heatmapCorrelation sa sb).
        { intros [[-> ->]|[-> ->]].
          - congruence.
          - assert (i' = j) by (eapply NoDup_lookup; eauto).
            assert (j' = i) by (eapply NoDup_lookup; eauto).
            assert (i = j) by lia. subst.
            assert (ticker1 = ticker2) by congruence. subst.
            congruence. }
        split; case_decide as Hd; try assumption;
          rewrite Hsame; auto; tauto. }
      split; [intros i' j' Hle Hfin; apply Hstable; auto|].
      intros j0 Hj0.
      destruct (decide (j0 = j)) as [->|NE].
      * intros a b sa sb Ha Hb Esa Esb.
        assert (a = ticker1) by congruence.
        assert (b = ticker2) by congruence. subst.
        assert (sa = series1) by congruence.
        assert (sb = series2) by congruence. subst.
        rewrite !(cell_setPair _ _ _ _ _ _ _ E).
        split; rewrite decide_True; auto.
      * apply Hstable; [lia|]. apply Hdone. lia.
    + rewrite (heatmapCell_skip stockData ticker1 ticker2 i j m Hji).
      exists m. split; [reflexivity|]. split; [exact Hp|].
      split; [exact Hkeep|]. intros j0 Hj0. apply Hdone. lia.
  - split; [exact Hpop|]. split; [auto|]. intros j Hj. lia.
  - exists matrix'. split; [exact E|]. split; [exact Hp|].
    split; [exact Hkeep|]. intros j Hij.
    destruct (Nat.lt_ge_cases j (length tickers)) as [Hlt|Hge].
    + apply Hdone. lia.
    + intros a b sa sb _ Hb. apply lookup_ge_None_2 in Hge. congruence.
Qed.

Lemma correlationMatrix_final :
  NoDup tickers ->
  exists matrix,
    CorrelationHeatmap.correlationMatrix stockData = Some matrix
    /\ populated tickers matrix
    /\ (forall i j, (i <= j)%nat -> heatFinal stockData matrix i j).
Proof.
  intros ND. unfold CorrelationHeatmap.correlationMatrix.
  destruct (initMatrix_populated tickers) as (matrix0 & E0 & Hpop & _).
  rewrite E0. cbn [mbind option_bind].
  destruct (forEachFrom_indexed
              (fun (matrix : Matrix) ticker1 i =>
                 forEachFrom
                   (CorrelationHeatmap.heatmapCell stockData ticker1 i)
                   0 tickers matrix)
              (fun k (m : Matrix) =>
                 populated tickers m
                 /\ (forall i j, (i < k)%nat -> (i <= j)%nat ->
                       heatFinal stockData m i j))
              tickers) with matrix0 as (matrix & E & Hp & Hdone).
  - intros i ticker1 m Hi (Hp & Hdone).
    destruct (heatmapRow_final ticker1 i m ND Hi Hp)
      as (m' & E & Hp' & Hkeep & Hnew).
    exists m'. split; [exact E|]. split; [exact Hp'|].
    intros i0 j Hi0 Hle.
    destruct (decide (i0 = i)) as [->|NE].
    + now apply Hnew.
    + apply Hkeep; [exact Hle|]. apply Hdone; [lia | exact Hle].
  - split; [exact Hpop|]. intros i j Hi. lia.
  - exists matrix. split; [exact E|]. split; [exact Hp|].
    intros i j Hle.
    destruct (Nat.lt_ge_cases i (length tickers)) as [Hlt|Hge].
    + now apply Hdone.
    + intros a b sa sb Ha. apply lookup_ge_None_2 in Hge. congruence.
Qed.

Lemma property_Some_keys (k : string) (series : list StockPrice) :
  property k stockData = Some series -> k ∈ tickers.
Proof.
  unfold Object_keys.
  induction stockData as [|[k' v] rest IH]; cbn; [discriminate|].
  destruct (String.eqb_spec k' k) as [->|NE]; [left|].
  intros H. right. now apply IH.
Qed.

End HeatmapLoops.

(** ** The matrix and the cells of the heat map *)

Section HeatmapTheorems.

(** X4: for an input none of whose symbols is ["__proto__"], the matrix
    of the heat map is built, and the number shown in the cell of any two
    symbols of the input (the stored correlation, or 0 where the stored
    value is zero or NaN) is never NaN and always lies between -1 and 1. *)
Theorem heatmap_displayed_value_in_range (stockData : StockData) :
  "__proto__" ∉ Object_keys stockData ->
  exists matrix,
    CorrelationHeatmap.correlationMatrix stockData = Some matrix
    /\ forall rowTicker colTicker : string,
         rowTicker ∈ Object_keys stockData ->
         colTicker ∈ Object_keys stockData ->
         inUnitRange
           (HeatmapView.displayedCorrelation matrix rowTicker colTicker)
         = true.
Proof.
  intros _.
  destruct (correlationMatrix_clamped stockData) as (matrix & E & _ & Hcl).
  exists matrix. split; [exact E|]. intros rowTicker colTicker _ _.
  unfold HeatmapView.displayedCorrelation. apply orElse_clamped.
  intros x Hx. now apply (Hcl rowTicker colTicker).
Qed.

Lemma heatmap_displayed_value_in_range_witness :
  exists matrix,
    CorrelationHeatmap.correlationMatrix
      [("AAPL", seriesA); ("MSFT", seriesB)] = Some matrix
    /\ inUnitRange (HeatmapView.displayedCorrelation matrix "AAPL" "MSFT")
       = true.
Proof.
  destruct (heatmap_displayed_value_in_range
              [("AAPL", seriesA); ("MSFT", seriesB)]) as (matrix & E & H).
  - apply (bool_decide_unpack _). vm_compute. exact I.
  - exists matrix. split; [exact E|]. apply H.
    + cbn. left.
    + cbn. right. left.
Defined.

Lemma keys_lookup (stockData : StockData) (a : string)
    (series : list StockPrice) :
  property a stockData = Some series ->
  exists i, Object_keys stockData !! i = Some a.
Proof.
  intros H%property_Some_keys. now apply list_elem_of_lookup_1.
Qed.

Lemma correlationMatrix_cell (stockData : StockData) (a b : string)
    (seriesA seriesB : list StockPrice) :
  NoDup (Object_keys stockData) ->
  property a stockData = Some seriesA ->
  property b stockData = Some seriesB ->
  exists matrix,
    CorrelationHeatmap.correlationMatrix stockData = Some matrix
    /\ cell matrix a b = Some (heatmapCorrelation seriesA seriesB).
Proof.
  intros ND Ha Hb.
  destruct (correlationMatrix_final stockData ND) as (matrix & E & _ & Hfin).
  exists matrix. split; [exact E|].
  destruct (keys_lookup stockData a seriesA Ha) as [i Hi].
  destruct (keys_lookup stockData b seriesB Hb) as [j Hj].
  destruct (Nat.le_gt_cases i j) as [Hij|Hji].
  - apply (Hfin i j Hij a b seriesA seriesB Hi Hj Ha Hb).
  - rewrite heatmapCorrelation_comm.
    apply (Hfin j i ltac:(lia) b a seriesB seriesA Hj Hi Hb Ha).
Qed.

(** X5: for an input none of whose symbols is ["__proto__"], in the matrix
    of the heat map the cell of two symbols holds the clamped correlation
    of their prices paired by position (the first [min] of the two
    lengths; 0 when that is 0 or a variance is not positive), the same
    number whichever of the two symbols comes first in the input: no
    timestamp takes part, and a later iteration never overwrites the cell
    with something else. *)
Theorem heatmap_cell_is_positional_correlation
    (stockData : StockData) (a b : string)
    (seriesA seriesB : list StockPrice) :
  "__proto__" ∉ Object_keys stockData ->
  NoDup (Object_keys stockData) ->
  property a stockData = Some seriesA ->
  property b stockData = Some seriesB ->
  exists matrix,
    CorrelationHeatmap.correlationMatrix stockData = Some matrix
    /\ cell matrix a b = Some (heatmapCorrelation seriesA seriesB)
    /\ cell matrix b a = Some (heatmapCorrelation seriesA seriesB).
Proof.
  intros _ ND Ha Hb.
  destruct (correlationMatrix_cell stockData a b seriesA seriesB ND Ha Hb)
    as (matrix & E & Hab).
  destruct (correlationMatrix_cell stockData b a seriesB seriesA ND Hb Ha)
    as (matrix' & E' & Hba).
  assert (matrix' = matrix) as -> by congruence.
  exists matrix. split; [exact E|]. split; [exact Hab|].
  now rewrite (heatmapCorrelation_comm seriesA seriesB).
Qed.

Lemma heatmap_cell_is_positional_correlation_witness :
  exists matrix,
    CorrelationHeatmap.correlationMatrix
      [("AAPL", seriesA); ("MSFT", seriesB)] = Some matrix
    /\ cell matrix "AAPL" "MSFT" = Some (heatmapCorrelation seriesA seriesB)
    /\ cell matrix "MSFT" "AAPL" = Some (heatmapCorrelation seriesA seriesB).
Proof.
  apply (heatmap_cell_is_positional_correlation
           [("AAPL", seriesA); ("MSFT", seriesB)] "AAPL" "MSFT"
           seriesA seriesB).
  - apply (bool_decide_unpack _). vm_compute. exact I.
  - apply (bool_decide_unpack _). vm_compute. exact I.
  - reflexivity.
  - reflexivity.
Defined.

(** X6: for an input none of whose symbols is ["__proto__"], a symbol whose
    series is empty has 0 in every cell of its row and of its column of
    the heat map's matrix, its self-cell included. *)
Theorem heatmap_empty_series_zero_cells
    (stockData : StockData) (a b : string) (seriesB : list StockPrice) :
  "__proto__" ∉ Object_keys stockData ->
  NoDup (Object_keys stockData) ->
  property a stockData = Some [] ->
  property b stockData = Some seriesB ->
  exists matrix,
    CorrelationHeatmap.correlationMatrix stockData = Some matrix
    /\ cell matrix a a = Some 0%float
    /\ cell matrix a b = Some 0%float
    /\ cell matrix b a = Some 0%float.
Proof.
  intros _ ND Ha Hb.
  destruct (correlationMatrix_cell stockData a b [] seriesB ND Ha Hb)
    as (matrix & E & Hab).
  destruct (correlationMatrix_cell stockData b a seriesB [] ND Hb Ha)
    as (matrix1 & E1 & Hba).
  destruct (correlationMatrix_cell stockData a a [] [] ND Ha Ha)
    as (matrix2 & E2 & Haa).
  assert (matrix1 = matrix) as -> by congruence.
  assert (matrix2 = matrix) as -> by congruence.
  exists matrix. split; [exact E|].
  rewrite Haa, Hab, Hba.
  now rewrite heatmapCorrelation_nil_l, heatmapCorrelation_nil_r.
Qed.

Lemma heatmap_empty_series_zero_cells_witness :
  exists matrix,
    CorrelationHeatmap.correlationMatrix
      [("AAPL", seriesA); ("IDLE", [])] = Some matrix
    /\ cell matrix "IDLE" "IDLE" = Some 0%float
    /\ cell matrix "IDLE" "AAPL" = Some 0%float
    /\ cell matrix "AAPL" "IDLE" = Some 0%float.
Proof.
  apply (heatmap_empty_series_zero_cells
           [("AAPL", seriesA); ("IDLE", [])] "IDLE" "AAPL" seriesA).
  - apply (bool_decide_unpack _). vm_compute. exact I.
  - apply (bool_decide_unpack _). vm_compute. exact I.
  - reflexivity.
  - reflexivity.
Defined.

Lemma forEachFrom_ext {St A : Type}
    (body body' : St -> A -> nat -> option St) (arr : list A) :
  (forall st item i, body st item i = body' st item i) ->
  forall i st, forEachFrom body i arr st = forEachFrom body' i arr st.
Proof.
  intros Hext. induction arr as [|item rest IH]; intros i st; [reflexivity|].
  cbn. rewrite Hext. destruct (body' st item i); cbn; [apply IH|reflexivity].
Qed.

Lemma property_prices (stockData stockData' : StockData) (ticker : string) :
  map (fun entry => (fst entry, map price (snd entry))) stockData
  = map (fun entry => (fst entry, map price (snd entry))) stockData' ->
  map price <$> property ticker stockData
  = map price <$> property ticker stockData'.
Proof.
  revert stockData'.
  induction stockData as [|[k v] rest IH]; intros [|[k' v'] rest'] H;
    try discriminate H; [reflexivity|].
  cbn in H. injection H as -> Hv Hrest. cbn.
  destruct (String.eqb k' ticker); [cbn; now rewrite Hv|].
  now apply IH.
Qed.

Lemma heatmapCell_prices (stockData stockData' : StockData)
    (ticker1 ticker2 : string) (i j : nat) (matrix : Matrix) :
  map (fun entry => (fst entry, map price (snd entry))) stockData
  = map (fun entry => (fst entry, map price (snd entry))) stockData' ->
  CorrelationHeatmap.heatmapCell stockData ticker1 i matrix ticker2 j
  = CorrelationHeatmap.heatmapCell stockData' ticker1 i matrix ticker2 j.
Proof.
  intros H. unfold CorrelationHeatmap.heatmapCell.
  destruct (Nat.leb i j); [|reflexivity].
  pose proof (property_prices stockData stockData' ticker1 H) as H1.
  pose proof (property_prices stockData stockData' ticker2 H) as H2.
  destruct (property ticker1 stockData) as [s1|],
           (property ticker1 stockData') as [s1'|];
    try discriminate H1; [|reflexivity].
  destruct (property ticker2 stockData) as [s2|],
           (property ticker2 stockData') as [s2'|];
    try discriminate H2; [|reflexivity].
  cbn in H1, H2. injection H1 as H1. injection H2 as H2.
  cbn [mbind option_bind]. now rewrite H1, H2.
Qed.

(** X7: the matrix of the heat map is a function of the symbols and their
    prices alone: two inputs with the same symbols in the same order and,
    for each symbol, the same prices in the same order give the same
    matrix, whatever the timestamps and ticker fields of the samples. *)
Theorem heatmap_reads_prices_only (stockData stockData' : StockData) :
  map (fun entry => (fst entry, map price (snd entry))) stockData
  = map (fun entry => (fst entry, map price (snd entry))) stockData' ->
  CorrelationHeatmap.correlationMatrix stockData
  = CorrelationHeatmap.correlationMatrix stockData'.
Proof.
  intros H. unfold CorrelationHeatmap.correlationMatrix.
  assert (Hkeys : Object_keys stockData = Object_keys stockData').
  { unfold Object_keys.
    apply (f_equal (map fst)) in H. rewrite !map_map in H. exact H. }
  rewrite Hkeys.
  destruct (initMatrix (Object_keys stockData')) as [matrix|];
    [|reflexivity].
  cbn [mbind option_bind].
  apply forEachFrom_ext. intros m ticker1 i.
  apply forEachFrom_ext. intros m' ticker2 j.
  now apply heatmapCell_prices.
Qed.

Lemma heatmap_reads_prices_only_witness :
  CorrelationHeatmap.correlationMatrix
    [("AAPL", seriesA); ("MSFT", seriesB)]
  = CorrelationHeatmap.correlationMatrix
      [("AAPL", seriesA);
       ("MSFT", [ mkStockPrice "MSFT" 21 "2024-03-02T00:00:00.000Z";
                  mkStockPrice "MSFT" 22 "2024-03-02T00:00:00.000Z";
                  mkStockPrice "MSFT" 23 "2024-03-02T00:00:00.000Z" ])].
Proof.
  apply (heatmap_reads_prices_only
           [("AAPL", seriesA); ("MSFT", seriesB)]
           [("AAPL", seriesA);
            ("MSFT", [ mkStockPrice "MSFT" 21 "2024-03-02T00:00:00.000Z";
                       mkStockPrice "MSFT" 22 "2024-03-02T00:00:00.000Z";
                       mkStockPrice "MSFT" 23 "2024-03-02T00:00:00.000Z" ])]).
  reflexivity.
Defined.

End HeatmapTheorems.

(** ** The cells of [processStockData] and the order of an alignment *)

Section ProcessStockDataTheorems.
Variable runtime : DateRuntime.

Lemma processStockData_pair_cells (stockData : StockData) (a b : string)
    (seriesA seriesB : list StockPrice) :
  validData runtime stockData ->
  property a stockData = Some seriesA ->
  property b stockData = Some seriesB ->
  String.ltb a b = true ->
  exists matrix alignedPrices,
    processStockData runtime stockData = Some matrix
    /\ alignPricesByTimestamp runtime seriesA seriesB = Some alignedPrices
    /\ cell matrix a a = Some 1%float
    /\ cell matrix a b
       = Some (calculateCorrelation
                 (map price1 alignedPrices) (map price2 alignedPrices))
    /\ cell matrix b a
       = Some (calculateCorrelation
                 (map price1 alignedPrices) (map price2 alignedPrices)).
Proof.
  intros Hvalid Ha Hb Hlt.
  destruct (processStockData_cells runtime stockData Hvalid)
    as (matrix & E & _ & Hcells).
  pose proof (property_Some_keys stockData a seriesA Ha) as Ka.
  pose proof (property_Some_keys stockData b seriesB Hb) as Kb.
  destruct (proj2 (alignPricesByTimestamp_parses runtime seriesA seriesB)
              (conj (validData_property runtime stockData a seriesA
                       Hvalid Ha)
                    (validData_property runtime stockData b seriesB
                       Hvalid Hb))) as [alignedPrices Ealign].
  assert (Hexp : expectedCell runtime stockData a b
                 = Some (calculateCorrelation
                           (map price1 alignedPrices)
                           (map price2 alignedPrices))).
  { unfold expectedCell, pairCorrelation.
    destruct (String.eqb_spec a b) as [Heq|_];
      [now apply string_ltb_neq in Hlt|].
    rewrite Hlt, Ha, Hb. cbn [mbind option_bind]. now rewrite Ealign. }
  exists matrix, alignedPrices. split; [exact E|]. split; [exact Ealign|].
  rewrite (Hcells a a Ka Ka), (Hcells a b Ka Kb), (Hcells b a Kb Ka).
  rewrite (expectedCell_sym runtime stockData b a), Hexp.
  now rewrite expectedCell_diag.
Qed.

Lemma alignPricesByTimestamp_nil_l (prices2 : list StockPrice) :
  parses runtime prices2 ->
  alignPricesByTimestamp runtime [] prices2 = Some [].
Proof.
  intros [entries2 E2]%samples_parses.
  now rewrite (alignPricesByTimestamp_join runtime [] prices2 [] entries2
                 eq_refl E2).
Qed.

Lemma alignPricesByTimestamp_nil_r (prices1 : list StockPrice) :
  parses runtime prices1 ->
  alignPricesByTimestamp runtime prices1 [] = Some [].
Proof.
  intros [entries1 E1]%samples_parses.
  rewrite (alignPricesByTimestamp_join runtime prices1 [] entries1 []
             E1 eq_refl).
  rewrite sharedBuckets_nil; [reflexivity|].
  intros k _ Hk. inversion Hk.
Qed.

(** X8: for an input none of whose symbols is ["__proto__"] and whose
    timestamps all parse, [processStockData] returns a matrix where the two
    cells of a pair of distinct symbols hold the correlation of the aligned
    prices, the series of the symbol that is smaller as a string being the
    first argument of the alignment, whichever of the two comes first in
    the input. *)
Theorem processStockData_cell_in_ticker_order
    (stockData : StockData) (a b : string)
    (seriesA seriesB : list StockPrice) :
  "__proto__" ∉ Object_keys stockData ->
  validData runtime stockData ->
  property a stockData = Some seriesA ->
  property b stockData = Some seriesB ->
  String.ltb a b = true ->
  exists matrix alignedPrices,
    processStockData runtime stockData = Some matrix
    /\ alignPricesByTimestamp runtime seriesA seriesB = Some alignedPrices
    /\ cell matrix a b
       = Some (calculateCorrelation
                 (map price1 alignedPrices) (map price2 alignedPrices))
    /\ cell matrix b a
       = Some (calculateCorrelation
                 (map price1 alignedPrices) (map price2 alignedPrices)).
Proof.
  intros _ Hvalid Ha Hb Hlt.
  destruct (processStockData_pair_cells stockData a b seriesA seriesB
              Hvalid Ha Hb Hlt)
    as (matrix & alignedPrices & E & Ealign & _ & Hab & Hba).
  exists matrix, alignedPrices. auto.
Qed.

(** X9: for an input none of whose symbols is ["__proto__"] and whose
    timestamps all parse, a symbol whose series is empty has 0 in the
    cells it shares with every other symbol of the matrix of
    [processStockData], and still 1 in its self-cell. *)
Theorem processStockData_empty_series_cells
    (stockData : StockData) (a b : string) (seriesB : list StockPrice) :
  "__proto__" ∉ Object_keys stockData ->
  validData runtime stockData ->
  property a stockData = Some [] ->
  property b stockData = Some seriesB ->
  a <> b ->
  exists matrix,
    processStockData runtime stockData = Some matrix
    /\ cell matrix a a = Some 1%float
    /\ cell matrix a b = Some 0%float
    /\ cell matrix b a = Some 0%float.
Proof.
  intros _ Hvalid Ha Hb NE.
  pose proof (validData_property runtime stockData b seriesB Hvalid Hb)
    as Pb.
  destruct (string_ltb_total a b NE) as [Hlt|Hlt].
  - destruct (processStockData_pair_cells stockData a b [] seriesB
                Hvalid Ha Hb Hlt)
      as (matrix & alignedPrices & E & Ealign & Haa & Hab & Hba).
    rewrite (alignPricesByTimestamp_nil_l seriesB Pb) in Ealign.
    injection Ealign as <-.
    exists matrix. auto.
  - destruct (processStockData_pair_cells stockData b a seriesB []
                Hvalid Hb Ha Hlt)
      as (matrix & alignedPrices & E & Ealign & _ & Hba & Hab).
    rewrite (alignPricesByTimestamp_nil_r seriesB Pb) in Ealign.
    injection Ealign as <-.
    destruct (processStockData_self_cell runtime stockData Hvalid)
      as (matrix' & E' & Hself).
    assert (matrix' = matrix) as -> by congruence.
    exists matrix. split; [exact E|]. split; [|auto].
    apply Hself. now apply (property_Some_keys stockData a []).
Qed.

Lemma swapPair_pairAt (timeMap1 timeMap2 : JSMap.t) (k : string) :
  swapPair (pairAt timeMap1 timeMap2 k) = pairAt timeMap2 timeMap1 k.
Proof. reflexivity. Qed.

(** X10: exchanging the two series of an alignment gives the same pairs
    with their two prices exchanged, up to the order of the pairs (which
    follows the first series); both orders throw on the same inputs. *)
Theorem alignPricesByTimestamp_swap (prices1 prices2 : list StockPrice) :
  match alignPricesByTimestamp runtime prices1 prices2,
        alignPricesByTimestamp runtime prices2 prices1 with
  | Some pairs12, Some pairs21 => pairs21 ≡ₚ map swapPair pairs12
  | None, None => True
  | _, _ => False
  end.
Proof.
  destruct (samples runtime prices1) as [entries1|] eqn:E1.
  - destruct (samples runtime prices2) as [entries2|] eqn:E2.
    + rewrite (alignPricesByTimestamp_join runtime _ _ _ _ E1 E2).
      rewrite (alignPricesByTimestamp_join runtime _ _ _ _ E2 E1).
      rewrite map_map.
      transitivity
        (map (pairAt (mapOf entries2) (mapOf entries1))
           (sharedBuckets (mapOf entries1) (mapOf entries2))).
      * apply Permutation_map.
        apply NoDup_Permutation; try apply sharedBuckets_NoDup.
        intros k. rewrite !sharedBuckets_elem. tauto.
      * apply eq_subrelation; [typeclasses eauto|].
        apply map_ext. intros k. symmetry. apply swapPair_pairAt.
    + unfold alignPricesByTimestamp. rewrite !timeMap_samples, E1, E2.
      reflexivity.
  - unfold alignPricesByTimestamp. rewrite !timeMap_samples, E1.
    now destruct (samples runtime prices2).
Qed.

End ProcessStockDataTheorems.

Lemma processStockData_cell_in_ticker_order_witness :
  exists matrix alignedPrices,
    processStockData utcRuntime [("MSFT", seriesB); ("AAPL", seriesA)]
    = Some matrix
    /\ alignPricesByTimestamp utcRuntime seriesA seriesB
       = Some alignedPrices
    /\ cell matrix "AAPL" "MSFT"
       = Some (calculateCorrelation
                 (map price1 alignedPrices) (map price2 alignedPrices))
    /\ cell matrix "MSFT" "AAPL"
       = Some (calculateCorrelation
                 (map price1 alignedPrices) (map price2 alignedPrices)).
Proof.
  apply (processStockData_cell_in_ticker_order utcRuntime
           [("MSFT", seriesB); ("AAPL", seriesA)] "AAPL" "MSFT"
           seriesA seriesB).
  - apply (bool_decide_unpack _). vm_compute. exact I.
  - repeat constructor; eexists; reflexivity.
  - reflexivity.
  - reflexivity.
  - reflexivity.
Defined.

Lemma processStockData_empty_series_cells_witness :
  exists matrix,
    processStockData utcRuntime [("AAPL", seriesA); ("IDLE", [])]
    = Some matrix
    /\ cell matrix "IDLE" "IDLE" = Some 1%float
    /\ cell matrix "IDLE" "AAPL" = Some 0%float
    /\ cell matrix "AAPL" "IDLE" = Some 0%float.
Proof.
  apply (processStockData_empty_series_cells utcRuntime
           [("AAPL", seriesA); ("IDLE", [])] "IDLE" "AAPL" seriesA).
  - apply (bool_decide_unpack _). vm_compute. exact I.
  - repeat constructor; eexists; reflexivity.
  - reflexivity.
  - reflexivity.
  - discriminate.
Defined.

(** ** The price change of the stock page *)

Section SummaryTheorems.

Lemma orElse_cases (v : option float) (d : float) :
  (orElse v d = d /\ forall x, v = Some x -> truthy x = false)
  \/ truthy (orElse v d) = true.
Proof.
  unfold orElse. destruct v as [x|].
  - destruct (truthy x) eqn:E; [now right|left].
    split; [reflexivity|]. now intros ? [= <-].
  - left. split; [reflexivity | discriminate].
Qed.

Lemma orElse_falsy (v : option float) (d : float) :
  (forall x, v = Some x -> truthy x = false) -> orElse v d = d.
Proof.
  intros H. unfold orElse. destruct v as [x|]; [|reflexivity].
  now rewrite (H x eq_refl).
Qed.

(** X11: the divisor of the percentage is the price of the second sample
    when that price is usable (not absent, 0 or NaN), otherwise the price
    of the first sample when that one is usable, and in both cases a
    nonzero number that is not NaN; only when neither is usable are the
    current price, the previous price and the change all 0 and the
    percentage NaN (0 / 0). *)
Theorem summary_divisor_zero_only_without_price
    (stockData : list StockPrice) :
  (forall x,
      price <$> stockData !! 1 = Some x -> truthy x = true ->
      StockPageSummary.previousPrice (StockPageSummary.summary stockData) = x)
  /\ (forall y,
        (forall x, price <$> stockData !! 1 = Some x -> truthy x = false) ->
        price <$> stockData !! 0 = Some y -> truthy y = true ->
        StockPageSummary.previousPrice (StockPageSummary.summary stockData)
        = y
        /\ StockPageSummary.currentPrice (StockPageSummary.summary stockData)
           = y)
  /\ ((forall x, price <$> stockData !! 1 = Some x -> truthy x = false) ->
      (forall y, price <$> stockData !! 0 = Some y -> truthy y = false) ->
      StockPageSummary.currentPrice (StockPageSummary.summary stockData)
      = 0%float
      /\ StockPageSummary.previousPrice (StockPageSummary.summary stockData)
         = 0%float
      /\ StockPageSummary.priceChange (StockPageSummary.summary stockData)
         = 0%float
      /\ PrimFloat.is_nan
           (StockPageSummary.priceChangePercent
              (StockPageSummary.summary stockData)) = true)
  /\ (forall x,
        truthy x = true ->
        PrimFloat.is_zero x = false /\ PrimFloat.is_nan x = false).
Proof.
  unfold StockPageSummary.summary. cbn.
  split; [|split; [|split]].
  - intros x E Hx. rewrite E. cbn. now rewrite Hx.
  - intros y Hsecond E Hy. rewrite (orElse_falsy _ _ Hsecond).
    rewrite E. cbn. now rewrite Hy.
  - intros Hsecond Hfirst.
    rewrite (orElse_falsy _ _ Hsecond), (orElse_falsy _ _ Hfirst).
    repeat split; reflexivity.
  - intros x. unfold truthy, PrimFloat.is_zero.
    destruct (x =? PrimFloat.zero)%float, (PrimFloat.is_nan x); cbn;
      intros H; try discriminate H; auto.
Qed.

Lemma summary_divisor_zero_only_without_price_witness :
  StockPageSummary.previousPrice
    (StockPageSummary.summary
       [mkStockPrice "AAPL" 150 "2024-03-01T09:01:00.000Z";
        mkStockPrice "AAPL" 120 "2024-03-01T09:00:00.000Z"]) = 120%float
  /\ StockPageSummary.previousPrice
       (StockPageSummary.summary
          [mkStockPrice "AAPL" 150 "2024-03-01T09:01:00.000Z";
           mkStockPrice "AAPL" 0 "2024-03-01T09:00:00.000Z"]) = 150%float
  /\ PrimFloat.is_nan
       (StockPageSummary.priceChangePercent (StockPageSummary.summary []))
     = true.
Proof.
  split; [|split].
  - destruct (summary_divisor_zero_only_without_price
                [mkStockPrice "AAPL" 150 "2024-03-01T09:01:00.000Z";
                 mkStockPrice "AAPL" 120 "2024-03-01T09:00:00.000Z"])
      as (Hsecond & _).
    apply Hsecond; reflexivity.
  - destruct (summary_divisor_zero_only_without_price
                [mkStockPrice "AAPL" 150 "2024-03-01T09:01:00.000Z";
                 mkStockPrice "AAPL" 0 "2024-03-01T09:00:00.000Z"])
      as (_ & Hfirst & _).
    apply (Hfirst 150%float); [|reflexivity|reflexivity].
    intros x [= <-]. reflexivity.
  - destruct (summary_divisor_zero_only_without_price [])
      as (_ & _ & Hnone & _).
    apply Hnone; intros ? H; discriminate H.
Defined.

(** X12: when the second sample gives no usable price (absent, 0 or NaN)
    and the current price is finite, the previous price is the current
    one, the change is 0, and the percentage is 0, -0 or NaN, never a
    nonzero number. *)
Theorem summary_without_previous_price (stockData : list StockPrice) :
  (forall x, price <$> stockData !! 1 = Some x -> truthy x = false) ->
  PrimFloat.is_finite
    (StockPageSummary.currentPrice (StockPageSummary.summary stockData))
  = true ->
  StockPageSummary.previousPrice (StockPageSummary.summary stockData)
  = StockPageSummary.currentPrice (StockPageSummary.summary stockData)
  /\ StockPageSummary.priceChange (StockPageSummary.summary stockData)
     = 0%float
  /\ truthy
       (StockPageSummary.priceChangePercent
          (StockPageSummary.summary stockData)) = false.
Proof.
  unfold StockPageSummary.summary. cbn. intros Hsecond Hfin.
  rewrite (orElse_falsy _ _ Hsecond).
  set (current := orElse (price <$> stockData !! 0) 0%float) in *.
  split; [reflexivity|].
  rewrite (sub_diag_finite current Hfin). split; [reflexivity|].
  unfold truthy, PrimFloat.is_zero, PrimFloat.is_nan.
  rewrite !FloatAxioms.eqb_spec, !mul_spec, !div_spec.
  destruct (is_finite_cases current Hfin) as [[s E] | (s & m & e & E)];
    rewrite E; destruct s; reflexivity.
Qed.

Lemma summary_without_previous_price_witness :
  StockPageSummary.previousPrice
    (StockPageSummary.summary
       [mkStockPrice "AAPL" 150 "2024-03-01T09:00:00.000Z"])
  = StockPageSummary.currentPrice
      (StockPageSummary.summary
         [mkStockPrice "AAPL" 150 "2024-03-01T09:00:00.000Z"])
  /\ StockPageSummary.priceChange
       (StockPageSummary.summary
          [mkStockPrice "AAPL" 150 "2024-03-01T09:00:00.000Z"])
     = 0%float
  /\ truthy
       (StockPageSummary.priceChangePercent
          (StockPageSummary.summary
             [mkStockPrice "AAPL" 150 "2024-03-01T09:00:00.000Z"]))
     = false.
Proof.
  apply (summary_without_previous_price
           [mkStockPrice "AAPL" 150 "2024-03-01T09:00:00.000Z"]).
  - intros x H. discriminate H.
  - reflexivity.
Defined.

End SummaryTheorems.

(** ** The sign of the standard deviation *)

Section DeviationSign.

Lemma binary_round_aux_sign (mx ex : Z) (lx : SpecFloat.location) :
  match SpecFloat.binary_round_aux prec emax false mx ex lx with
  | S754_zero s => s = false
  | S754_infinity s => s = false
  | S754_nan => True
  | S754_finite s _ _ => s = false
  end.
Proof.
  unfold SpecFloat.binary_round_aux.
  destruct (shr_fexp prec emax mx ex lx) as [mrs' e'].
  destruct (shr_fexp prec emax _ e' loc_Exact) as [mrs'' e''].
  destruct (shr_m mrs''); auto.
  destruct (e'' <=? emax - prec)%Z; auto.
Qed.

Lemma SFsqrt_nonneg (x : spec_float) :
  SF64sqrt x = S754_nan \/ SFleb (S754_zero false) (SF64sqrt x) = true.
Proof.
  unfold SF64sqrt, SFsqrt.
  destruct x as [s0|[|]| |[|] m e]; auto.
  destruct (SFsqrt_core_binary prec emax (Z.pos m) e) as [[m' e'] l].
  pose proof (binary_round_aux_sign m' e' l) as H.
  destruct (binary_round_aux prec emax false m' e' l) as [s|s| |s m0 e0];
    auto; subst; right; reflexivity.
Qed.

Lemma Math_sqrt_nonneg (x : float) :
  PrimFloat.is_nan (Math_sqrt x) = true
  \/ (0 <=? Math_sqrt x)%float = true.
Proof.
  unfold Math_sqrt.
  destruct (SFsqrt_nonneg (Prim2SF x)) as [H|H].
  - left. unfold PrimFloat.is_nan.
    rewrite FloatAxioms.eqb_spec, sqrt_spec, H. reflexivity.
  - right. rewrite leb_spec, sqrt_spec. exact H.
Qed.

(** X13: the standard deviation is never negative: for every list of
    numbers it is NaN or at least 0. *)
Theorem calculateStandardDeviation_not_negative (prices : list float) :
  PrimFloat.is_nan (calculateStandardDeviation prices) = true
  \/ (0 <=? calculateStandardDeviation prices)%float = true.
Proof.
  unfold calculateStandardDeviation.
  destruct (Nat.eqb (length prices) 0); [now right|].
  apply Math_sqrt_nonneg.
Qed.

End DeviationSign.

(** ** The statistics of the heat map *)

Section StockStatsTheorems.
Variable stockData : StockData.

Lemma property_None_keys (k : string) :
  k ∉ Object_keys stockData -> property k stockData = None.
Proof.
  intros Hk. destruct (property k stockData) as [series|] eqn:E;
    [|reflexivity].
  now apply property_Some_keys in E.
Qed.

Lemma stockStats_loop (tickers : list string)
    (stats : gmap string HeatmapView.Stats) (k : string) :
  fold_left
    (fun (stats : gmap string HeatmapView.Stats) ticker =>
       let prices :=
         match property ticker stockData with
         | Some series => map price series
         | None => []
         end in
       <[ticker := {| HeatmapView.avg := calculateAverage prices;
                      HeatmapView.stdDev :=
                        calculateStandardDeviation prices |}]> stats)
    tickers stats !! k
  = if decide (k ∈ tickers)
    then
      let prices :=
        match property k stockData with
        | Some series => map price series
        | None => []
        end in
      Some {| HeatmapView.avg := calculateAverage prices;
              HeatmapView.stdDev := calculateStandardDeviation prices |}
    else stats !! k.
Proof.
  revert stats. induction tickers as [|ticker rest IH]; intros stats.
  - cbn. now rewrite decide_False by apply not_elem_of_nil.
  - cbn [fold_left]. rewrite IH.
    destruct (decide (k ∈ rest)) as [Hin|Hout].
    + rewrite decide_True by now right. reflexivity.
    + destruct (decide (k = ticker)) as [->|NE].
      * rewrite decide_True by left. now rewrite lookup_insert_eq.
      * rewrite decide_False by (intros [?|?]%elem_of_cons; contradiction).
        now rewrite lookup_insert_ne.
Qed.

(** X14: for an input none of whose symbols is ["__proto__"], the
    statistics of the heat map have exactly the symbols of the input as
    keys, each with the average and the standard deviation of the prices
    of its series; the fallback to an empty list is never taken. *)
Theorem stockStats_entries (ticker : string) :
  "__proto__" ∉ Object_keys stockData ->
  HeatmapView.stockStats stockData !! ticker
  = series ← property ticker stockData;
    Some {| HeatmapView.avg := calculateAverage (map price series);
            HeatmapView.stdDev :=
              calculateStandardDeviation (map price series) |}.
Proof.
  intros _. unfold HeatmapView.stockStats. rewrite stockStats_loop.
  destruct (decide (ticker ∈ Object_keys stockData)) as [Hin|Hout].
  - destruct (property_keys stockData ticker Hin) as [series E].
    now rewrite E.
  - now rewrite (property_None_keys ticker Hout), lookup_empty.
Qed.

End StockStatsTheorems.

Lemma stockStats_entries_witness :
  HeatmapView.stockStats [("AAPL", seriesA); ("IDLE", [])] !! "IDLE"
  = Some {| HeatmapView.avg := 0; HeatmapView.stdDev := 0 |}
  /\ HeatmapView.stockStats [("AAPL", seriesA); ("IDLE", [])] !! "AAPL"
     = Some {| HeatmapView.avg := calculateAverage [10; 11; 12]%float;
               HeatmapView.stdDev :=
                 calculateStandardDeviation [10; 11; 12]%float |}
  /\ HeatmapView.stockStats [("AAPL", seriesA); ("IDLE", [])] !! "MSFT"
     = None.
Proof.
  assert (HP : "__proto__" ∉ Object_keys [("AAPL", seriesA); ("IDLE", [])])
    by (apply (bool_decide_unpack _); vm_compute; exact I).
  rewrite !(stockStats_entries [("AAPL", seriesA); ("IDLE", [])] _ HP).
  repeat split; reflexivity.
Defined.

(** ** The list of tickers of the correlation page *)

Section CorrelationPageTheorems.
Variable trim : string -> string.
Variable toUpperCase : string -> string.

Lemma includes_elem (ticker : string) (tickers : list string) :
  CorrelationPage.includes ticker tickers = true <-> ticker ∈ tickers.
Proof.
  unfold CorrelationPage.includes.
  rewrite existsb_exists, list_elem_of_In. split.
  - intros (x & Hx & ->%String.eqb_eq). exact Hx.
  - intros H. exists ticker. split; [exact H | apply String.eqb_refl].
Qed.

Lemma includes_not_elem (ticker : string) (tickers : list string) :
  CorrelationPage.includes ticker tickers = false -> ticker ∉ tickers.
Proof.
  intros H Hin%includes_elem. congruence.
Qed.

Lemma filter_NoDup {A : Type} (keep : A -> bool) (l : list A) :
  NoDup l -> NoDup (List.filter keep l).
Proof.
  intros H. now apply NoDup_ListNoDup, List.NoDup_filter, NoDup_ListNoDup.
Qed.

Lemma validTickers_elem (data : StockData) (k : string) :
  k ∈ CorrelationPage.validTickers data -> k ∈ Object_keys data.
Proof.
  unfold CorrelationPage.validTickers, Object_keys.
  rewrite !list_elem_of_In, !in_map_iff.
  intros (entry & <- & [Hin _]%filter_In). eauto.
Qed.

Lemma validTickers_NoDup (data : StockData) :
  NoDup (Object_keys data) -> NoDup (CorrelationPage.validTickers data).
Proof.
  unfold CorrelationPage.validTickers, Object_keys.
  induction data as [|[k v] rest IH]; intros ND; [constructor|].
  cbn [map fst] in ND. apply NoDup_cons in ND as [Hk ND].
  cbn [List.filter snd].
  destruct (Nat.ltb 0 (length v)); [|now apply IH].
  cbn [map fst]. apply NoDup_cons. split; [|now apply IH].
  intros Hin. apply Hk. now apply (validTickers_elem rest k).
Qed.

Lemma handleAddTicker_tickers (st : CorrelationPage.PageState) :
  CorrelationPage.tickers
    (CorrelationPage.handleAddTicker trim toUpperCase st)
  = if String.eqb (trim (CorrelationPage.newTicker st)) EmptyString
       || CorrelationPage.includes
            (toUpperCase (trim (CorrelationPage.newTicker st)))
            (CorrelationPage.tickers st)
    then CorrelationPage.tickers st
    else CorrelationPage.tickers st
         ++ [toUpperCase (trim (CorrelationPage.newTicker st))].
Proof.
  unfold CorrelationPage.handleAddTicker.
  destruct (String.eqb (trim (CorrelationPage.newTicker st)) EmptyString);
    [reflexivity|].
  cbn [orb].
  now destruct (CorrelationPage.includes _ _).
Qed.

Lemma handleRemoveTicker_tickers (ticker : string)
    (st : CorrelationPage.PageState) :
  CorrelationPage.tickers (CorrelationPage.handleRemoveTicker ticker st)
  = if Nat.leb (length (CorrelationPage.tickers st)) 1
    then CorrelationPage.tickers st
    else List.filter (fun t => negb (String.eqb t ticker))
           (CorrelationPage.tickers st).
Proof.
  unfold CorrelationPage.handleRemoveTicker.
  now destruct (Nat.leb (length (CorrelationPage.tickers st)) 1).
Qed.

Lemma loadStockDataDone_tickers (tickers : list string)
    (fetched : option StockData) (st : CorrelationPage.PageState) :
  CorrelationPage.tickers
    (CorrelationPage.loadStockDataDone tickers fetched st)
  = match fetched with
    | Some data =>
        if Nat.eqb (length (CorrelationPage.validTickers data))
             (length tickers)
        then CorrelationPage.tickers st
        else CorrelationPage.validTickers data
    | None => CorrelationPage.tickers st
    end.
Proof.
  unfold CorrelationPage.loadStockDataDone.
  destruct fetched as [data|]; [|reflexivity].
  destruct (Nat.eqb (length (CorrelationPage.validTickers data))
              (length tickers)); [reflexivity|].
  cbn [negb].
  destruct (Nat.eqb (length (CorrelationPage.validTickers data)) 0);
    [reflexivity|].
  now destruct (Nat.ltb (length (CorrelationPage.validTickers data))
                  (length tickers)).
Qed.

(** X15: in every state that the events of the correlation page can
    produce (typing, adding, removing, closing the notice, starting and
    finishing a load), the list of tickers has no duplicate. *)
Theorem reachable_tickers_NoDup (st : CorrelationPage.PageState) :
  reachable trim toUpperCase st -> NoDup (CorrelationPage.tickers st).
Proof.
  induction 1 as [|st value _ IH|st _ IH|st ticker _ IH|st _ IH
                  |st tickers _ IH|st tickers fetched _ IH Hkeys].
  - apply (bool_decide_unpack _). vm_compute. exact I.
  - exact IH.
  - rewrite handleAddTicker_tickers.
    destruct (String.eqb _ _); [exact IH|]. cbn [orb].
    destruct (CorrelationPage.includes _ _) eqn:E; [exact IH|].
    apply NoDup_app. split; [exact IH|]. split; [|apply NoDup_singleton].
    intros x Hx ->%list_elem_of_singleton.
    now apply includes_not_elem in E.
  - rewrite handleRemoveTicker_tickers.
    destruct (Nat.leb _ 1); [exact IH | now apply filter_NoDup].
  - exact IH.
  - unfold CorrelationPage.loadStockDataStart.
    now destruct (Nat.eqb (length tickers) 0).
  - rewrite loadStockDataDone_tickers.
    destruct fetched as [data|]; [|exact IH].
    destruct (Nat.eqb _ _); [exact IH|].
    apply validTickers_NoDup. now apply Hkeys.
Qed.

(** X16: removing a ticker from a list without duplicates never empties
    it: the last ticker stays (the list is then unchanged), and from two
    tickers on the removed one is gone and at least one other remains. *)
Theorem handleRemoveTicker_keeps_a_ticker
    (ticker : string) (st : CorrelationPage.PageState) :
  NoDup (CorrelationPage.tickers st) ->
  CorrelationPage.tickers st <> [] ->
  CorrelationPage.tickers (CorrelationPage.handleRemoveTicker ticker st)
  <> []
  /\ (length (CorrelationPage.tickers st) <= 1 ->
      CorrelationPage.tickers (CorrelationPage.handleRemoveTicker ticker st)
      = CorrelationPage.tickers st)
  /\ (2 <= length (CorrelationPage.tickers st) ->
      ticker ∉ CorrelationPage.tickers
                 (CorrelationPage.handleRemoveTicker ticker st)).
Proof.
  intros ND NE. rewrite handleRemoveTicker_tickers.
  destruct (Nat.leb_spec (length (CorrelationPage.tickers st)) 1)
    as [Hle|Hgt].
  - split; [exact NE|]. split; [reflexivity | lia].
  - split; [|split; [lia|]].
    + destruct (CorrelationPage.tickers st) as [|a [|b rest]];
        cbn in Hgt; try lia.
      apply NoDup_cons in ND as [Ha _].
      cbn [List.filter].
      destruct (String.eqb_spec a ticker) as [->|Hneq]; cbn [negb];
        [|discriminate].
      destruct (String.eqb_spec b ticker) as [->|Hneq]; cbn [negb];
        [|discriminate].
      exfalso. apply Ha. left.
    + intros _. rewrite list_elem_of_In, filter_In.
      intros [_ H]. now rewrite String.eqb_refl in H.
Qed.

(** X17: adding the same text twice adds at most one ticker: after the
    text has been typed and added, typing it again and adding again leaves
    the list of tickers as it is. *)
Theorem handleAddTicker_twice
    (value : string) (st : CorrelationPage.PageState) :
  CorrelationPage.tickers
    (CorrelationPage.handleAddTicker trim toUpperCase
       (CorrelationPage.setNewTicker value
          (CorrelationPage.handleAddTicker trim toUpperCase
             (CorrelationPage.setNewTicker value st))))
  = CorrelationPage.tickers
      (CorrelationPage.handleAddTicker trim toUpperCase
         (CorrelationPage.setNewTicker value st)).
Proof.
  rewrite (handleAddTicker_tickers
             (CorrelationPage.setNewTicker value
                (CorrelationPage.handleAddTicker trim toUpperCase
                   (CorrelationPage.setNewTicker value st)))).
  cbn [CorrelationPage.setNewTicker CorrelationPage.newTicker
       CorrelationPage.tickers].
  destruct (String.eqb (trim value) EmptyString) eqn:Eblank; [reflexivity|].
  cbn [orb].
  rewrite (handleAddTicker_tickers (CorrelationPage.setNewTicker value st)).
  cbn [CorrelationPage.setNewTicker CorrelationPage.newTicker
       CorrelationPage.tickers].
  rewrite Eblank. cbn [orb].
  destruct (CorrelationPage.includes (toUpperCase (trim value))
              (CorrelationPage.tickers st)) eqn:E.
  - now rewrite E.
  - assert (Hin : CorrelationPage.includes (toUpperCase (trim value))
                    (CorrelationPage.tickers st
                     ++ [toUpperCase (trim value)]) = true).
    { apply includes_elem, elem_of_app. right. left. }
    now rewrite Hin.
Qed.

End CorrelationPageTheorems.

Lemma reachable_tickers_NoDup_witness :
  NoDup
    (CorrelationPage.tickers
       (CorrelationPage.handleAddTicker asciiTrim asciiToUpperCase
          (CorrelationPage.setNewTicker " nvda "
             CorrelationPage.initialState))).
Proof.
  apply (reachable_tickers_NoDup asciiTrim asciiToUpperCase).
  apply reach_add, reach_typed, reach_initial.
Defined.

Lemma handleRemoveTicker_keeps_a_ticker_witness :
  CorrelationPage.tickers
    (CorrelationPage.handleRemoveTicker "AAPL" CorrelationPage.initialState)
  <> []
  /\ (length (CorrelationPage.tickers CorrelationPage.initialState) <= 1 ->
      CorrelationPage.tickers
        (CorrelationPage.handleRemoveTicker "AAPL"
           CorrelationPage.initialState)
      = CorrelationPage.tickers CorrelationPage.initialState)
  /\ (2 <= length (CorrelationPage.tickers CorrelationPage.initialState) ->
      "AAPL" ∉ CorrelationPage.tickers
                 (CorrelationPage.handleRemoveTicker "AAPL"
                    CorrelationPage.initialState)).
Proof.
  apply (handleRemoveTicker_keeps_a_ticker "AAPL"
           CorrelationPage.initialState).
  - apply (bool_decide_unpack _). vm_compute. exact I.
  - discriminate.
Defined.

(** ** The two copies of the correlation *)

Section TwoCorrelations.

Lemma SFmul_self_signClear (x : spec_float) : signClear (SF64mul x x).
Proof.
  unfold SF64mul, SFmul.
  destruct x as [s|s| |s m e]; cbn [signClear];
    try apply xorb_nilpotent; [exact I|].
  rewrite xorb_nilpotent.
  pose proof (binary_round_aux_sign (Z.pos (m * m)) (e + e) loc_Exact) as H.
  destruct (binary_round_aux prec emax false (Z.pos (m * m)) (e + e)
              loc_Exact); exact H.
Qed.

Lemma SFadd_signClear (x y : spec_float) :
  signClear x -> signClear y -> signClear (SF64add x y).
Proof.
  unfold SF64add, SFadd.
  destruct x as [sx|sx| |sx mx ex], y as [sy|sy| |sy my ey];
    cbn [signClear]; intros Hx Hy; subst; cbn [signClear]; auto.
  set (m1 := fst (shl_align mx ex _)). set (m2 := fst (shl_align my ey _)).
  change (cond_Zopp false (Z.pos m1) + cond_Zopp false (Z.pos m2))%Z
    with (Z.pos (m1 + m2)).
  unfold binary_normalize, binary_round.
  destruct (shl_align (m1 + m2) _ _) as [mz ez].
  pose proof (binary_round_aux_sign (Z.pos mz) ez loc_Exact) as H.
  destruct (binary_round_aux prec emax false (Z.pos mz) ez loc_Exact);
    exact H.
Qed.

Lemma sumsStep_signClear (prices1 prices2 : list float) (avg1 avg2 : float)
    (acc : Sums) (i : nat) :
  signClear (Prim2SF (variance1 acc))
  /\ signClear (Prim2SF (variance2 acc)) ->
  signClear (Prim2SF (variance1 (sumsStep prices1 prices2 avg1 avg2 acc i)))
  /\ signClear
       (Prim2SF (variance2 (sumsStep prices1 prices2 avg1 avg2 acc i))).
Proof.
  intros [H1 H2]. unfold sumsStep. cbn [variance1 variance2].
  rewrite !add_spec, !mul_spec.
  split; apply SFadd_signClear; auto using SFmul_self_signClear.
Qed.

Lemma sumsLoop_signClear (n : nat) (prices1 prices2 : list float)
    (avg1 avg2 : float) :
  signClear (Prim2SF (variance1 (sumsLoop n prices1 prices2 avg1 avg2)))
  /\ signClear (Prim2SF (variance2 (sumsLoop n prices1 prices2 avg1 avg2))).
Proof.
  unfold sumsLoop.
  assert (Hgen : forall l acc,
             signClear (Prim2SF (variance1 acc))
             /\ signClear (Prim2SF (variance2 acc)) ->
             signClear
               (Prim2SF
                  (variance1
                     (fold_left (sumsStep prices1 prices2 avg1 avg2) l acc)))
             /\ signClear
                  (Prim2SF
                     (variance2
                        (fold_left (sumsStep prices1 prices2 avg1 avg2)
                           l acc)))).
  { induction l as [|i l IH]; intros acc Hacc; [exact Hacc|].
    cbn [fold_left]. apply IH. now apply sumsStep_signClear. }
  apply Hgen. split; reflexivity.
Qed.

Lemma is_nan_true (x : float) :
  PrimFloat.is_nan x = true -> Prim2SF x = S754_nan.
Proof.
  unfold PrimFloat.is_nan. rewrite FloatAxioms.eqb_spec.
  destruct (Prim2SF x) as [s|s| |s m e]; try reflexivity;
    unfold SFeqb; cbn [SFcompare]; try (destruct s; discriminate).
  destruct s; rewrite ?Z.compare_refl, ?Pos.compare_cont_refl;
    try discriminate.
  all: change (IntDef.Z.compare e e) with (Z.compare e e);
    rewrite Z.compare_refl;
    change (PosDef.Pos.compare_cont Eq m m) with (Pos.compare m m);
    rewrite Pos.compare_refl; discriminate.
Qed.

(** On a sum of squares, [> 0] and [=== 0] are opposite unless it is NaN. *)
Lemma signClear_positive (v : float) :
  signClear (Prim2SF v) -> PrimFloat.is_nan v = false ->
  (0 <? v)%float = negb (PrimFloat.is_zero v).
Proof.
  intros Hs Hn%is_nan_false. unfold PrimFloat.is_zero.
  rewrite ltb_spec, FloatAxioms.eqb_spec.
  change (Prim2SF PrimFloat.zero) with (S754_zero false).
  change (Prim2SF 0) with (S754_zero false).
  destruct (Prim2SF v) as [s|s| |s m e]; cbn [signClear] in Hs; subst;
    try reflexivity.
  contradiction.
Qed.

Lemma nan_guards (v : float) :
  PrimFloat.is_nan v = true ->
  (0 <? v)%float = false /\ PrimFloat.is_zero v = false.
Proof.
  intros E%is_nan_true. unfold PrimFloat.is_zero.
  rewrite ltb_spec, FloatAxioms.eqb_spec, E. split; reflexivity.
Qed.

Lemma quotient_nan_l (c v1 v2 : float) :
  PrimFloat.is_nan v1 = true ->
  PrimFloat.is_nan (c / (Math_sqrt v1 * Math_sqrt v2))%float = true.
Proof.
  intros E%is_nan_true. unfold PrimFloat.is_nan, Math_sqrt.
  rewrite FloatAxioms.eqb_spec, div_spec, mul_spec, !sqrt_spec, E.
  cbn [SF64sqrt SFsqrt SF64mul SFmul].
  destruct (Prim2SF c); reflexivity.
Qed.

Lemma quotient_nan_r (c v1 v2 : float) :
  PrimFloat.is_nan v2 = true ->
  PrimFloat.is_nan (c / (Math_sqrt v1 * Math_sqrt v2))%float = true.
Proof.
  intros E%is_nan_true. unfold PrimFloat.is_nan, Math_sqrt.
  rewrite FloatAxioms.eqb_spec, div_spec, mul_spec, !sqrt_spec, E.
  cbn [SF64sqrt SFsqrt].
  assert (Hm : forall x, SF64mul x S754_nan = S754_nan)
    by (intros [| | |]; reflexivity).
  rewrite Hm. destruct (Prim2SF c); reflexivity.
Qed.

Lemma heatmapCorrelation_as_helper (series1 series2 : list StockPrice) :
  length series1 = length series2 ->
  heatmapCorrelation series1 series2
  = clamp (calculateCorrelation (map price series1) (map price series2))
  \/ (PrimFloat.is_nan
        (calculateCorrelation (map price series1) (map price series2))
      = true
      /\ heatmapCorrelation series1 series2 = 0%float).
Proof.
  intros Hlen. unfold heatmapCorrelation, calculateCorrelation, clamp.
  cbv zeta.
  assert (Hl : length (map price series2) = length (map price series1))
    by now rewrite !length_map.
  rewrite Hl, Nat.min_id, Nat.eqb_refl, firstn_all.
  rewrite (firstn_all2 (map price series2)) by lia.
  cbn [negb orb].
  destruct (Nat.eqb (length (map price series1)) 0); [now left|].
  set (acc := sumsLoop _ _ _ _ _).
  destruct (sumsLoop_signClear (length (map price series1))
              (map price series1) (map price series2)
              (calculateAverage (map price series1))
              (calculateAverage (map price series2))) as [S1 S2].
  fold acc in S1, S2.
  destruct (PrimFloat.is_nan (variance1 acc)) eqn:N1.
  - destruct (nan_guards _ N1) as [-> ->]. cbn [andb orb].
    destruct (PrimFloat.is_zero (variance2 acc)); [now left|].
    right. split; [|reflexivity].
    apply (quotient_nan_l (covariance acc) _ (variance2 acc) N1).
  - destruct (PrimFloat.is_nan (variance2 acc)) eqn:N2.
    + destruct (nan_guards _ N2) as [-> ->].
      rewrite andb_false_r, orb_false_r.
      destruct (PrimFloat.is_zero (variance1 acc)); [now left|].
      right. split; [|reflexivity].
      apply (quotient_nan_r (covariance acc) (variance1 acc) _ N2).
    + rewrite (signClear_positive _ S1 N1), (signClear_positive _ S2 N2).
      left.
      destruct (PrimFloat.is_zero (variance1 acc)),
               (PrimFloat.is_zero (variance2 acc)); reflexivity.
Qed.

(** X18: the heat map's own copy of the correlation agrees with the shared
    helper followed by the clamp: for an input none of whose symbols is
    ["__proto__"] and two symbols whose series have the same length, the
    cell holds [calculateCorrelation] of their prices clamped to [-1, 1];
    the one exception is a helper result of NaN, where the cell may hold 0
    instead. *)
Theorem heatmap_cell_is_clamped_calculateCorrelation
    (stockData : StockData) (a b : string)
    (seriesA seriesB : list StockPrice) :
  "__proto__" ∉ Object_keys stockData ->
  NoDup (Object_keys stockData) ->
  property a stockData = Some seriesA ->
  property b stockData = Some seriesB ->
  length seriesA = length seriesB ->
  exists matrix,
    CorrelationHeatmap.correlationMatrix stockData = Some matrix
    /\ (cell matrix a b
        = Some (Math_max (-1)
                  (Math_min 1
                     (calculateCorrelation (map price seriesA)
                        (map price seriesB))))%float
        \/ (PrimFloat.is_nan
              (calculateCorrelation (map price seriesA) (map price seriesB))
            = true
            /\ cell matrix a b = Some 0%float)).
Proof.
  intros _ ND Ha Hb Hlen.
  destruct (correlationMatrix_cell stockData a b seriesA seriesB ND Ha Hb)
    as (matrix & E & Hab).
  exists matrix. split; [exact E|]. rewrite Hab.
  destruct (heatmapCorrelation_as_helper seriesA seriesB Hlen)
    as [->|[Hnan ->]]; [now left | now right].
Qed.

Lemma heatmap_cell_is_clamped_calculateCorrelation_witness :
  exists matrix,
    CorrelationHeatmap.correlationMatrix
      [("A", risingSeries "A"); ("B", risingSeries "B")] = Some matrix
    /\ (cell matrix "A" "B"
        = Some (Math_max (-1)
                  (Math_min 1
                     (calculateCorrelation
                        (map price (risingSeries "A"))
                        (map price (risingSeries "B")))))%float
        \/ (PrimFloat.is_nan
              (calculateCorrelation
                 (map price (risingSeries "A"))
                 (map price (risingSeries "B")))
            = true
            /\ cell matrix "A" "B" = Some 0%float)).
Proof.
  apply (heatmap_cell_is_clamped_calculateCorrelation
           [("A", risingSeries "A"); ("B", risingSeries "B")] "A" "B"
           (risingSeries "A") (risingSeries "B")).
  - apply (bool_decide_unpack _). vm_compute. exact I.
  - apply (bool_decide_unpack _). vm_compute. exact I.
  - reflexivity.
  - reflexivity.
  - reflexivity.
Defined.

End TwoCorrelations.

(** ** The bucket of a timestamp where local time is UTC *)

Section UtcBuckets.









End UtcBuckets.
